(** * ZigFHEBridge: the decryption request / completion contract

    A shallow embedding of the Solidity contract [ZigFHEBridge] and the
    properties of its binding store and task coordinator.

    Layout of the development:
    - [Keccak]  : the Keccak-256 hash the EVM exposes as [keccak256];
    - [Abi]     : the pieces of the ABI encoding the contract relies on
                  ([abi.encodePacked], [abi.decode(_, (uint32))]);
    - the contract itself: storage, events, the public functions as
      transactions that either commit a new state or revert;
    - the properties. *)

From Stdlib Require Import ZArith List Lia Bool.
From Stdlib Require Import Strings.String Strings.Byte.
From stdpp Require Import base option list gmap.

Import ListNotations.
Local Open Scope Z_scope.

(** ** Bytes and fixed-width integers *)

Abbreviation bytes := (list byte).

Definition byte_to_Z (b : byte) : Z := Z.of_N (Byte.to_N b).

Definition Z_to_byte (z : Z) : byte :=
  match Byte.of_N (Z.to_N (z mod 256)) with
  | Some b => b
  | None => x00
  end.

(** Big-endian and little-endian readings of a byte string. *)
Definition be_to_Z (bs : bytes) : Z :=
  fold_left (fun acc b => acc * 256 + byte_to_Z b) bs 0.

Definition le_to_Z (bs : bytes) : Z :=
  fold_right (fun b acc => byte_to_Z b + 256 * acc) 0 bs.

(** [n] bytes of [z], most significant first (the value is taken
    modulo [256^n], as a cast to a fixed-width type does). *)
Fixpoint Z_to_be (n : nat) (z : Z) : bytes :=
  match n with
  | O => []
  | S k => Z_to_be k (z / 256) ++ [Z_to_byte z]
  end.

Fixpoint Z_to_le (n : nat) (z : Z) : bytes :=
  match n with
  | O => []
  | S k => Z_to_byte z :: Z_to_le k (z / 256)
  end.

Definition uint256_max : Z := 2 ^ 256 - 1.

(** ** Keccak-256 *)

Module Keccak.

Definition rotl64 (x n : Z) : Z :=
  Z.lor (Z.land (Z.shiftl x n) (Z.ones 64)) (Z.shiftr x (64 - n)).

Definition not64 (x : Z) : Z := Z.lxor x (Z.ones 64).

(** The 5x5 state is a list of 25 lanes, lane (x, y) at index x + 5y. *)
Definition lane (A : list Z) (i : nat) : Z := nth i A 0.

Definition round_constants : list Z :=
  [ 0x0000000000000001; 0x0000000000008082; 0x800000000000808A;
    0x8000000080008000; 0x000000000000808B; 0x0000000080000001;
    0x8000000080008081; 0x8000000000008009; 0x000000000000008A;
    0x0000000000000088; 0x0000000080008009; 0x000000008000000A;
    0x000000008000808B; 0x800000000000008B; 0x8000000000008089;
    0x8000000000008003; 0x8000000000008002; 0x8000000000000080;
    0x000000000000800A; 0x800000008000000A; 0x8000000080008081;
    0x8000000000008080; 0x0000000080000001; 0x8000000080008008 ].

(** Rotation offsets, offset of lane (x, y) at index x + 5y. *)
Definition rotation_offsets : list Z :=
  [  0;  1; 62; 28; 27;
    36; 44;  6; 55; 20;
     3; 10; 43; 25; 39;
    41; 45; 15; 21;  8;
    18;  2; 61; 56; 14 ].

Definition indices : list nat := seq 0 25.

Definition theta (A : list Z) : list Z :=
  let C x :=
    Z.lxor (lane A x)
      (Z.lxor (lane A (x + 5))
         (Z.lxor (lane A (x + 10))
            (Z.lxor (lane A (x + 15)) (lane A (x + 20))))) in
  let D x := Z.lxor (C ((x + 4) mod 5)%nat) (rotl64 (C ((x + 1) mod 5)%nat) 1) in
  map (fun i => Z.lxor (lane A i) (D (i mod 5)%nat)) indices.

(** rho and pi together: B[y, 2x+3y] = rot(A[x, y], r[x, y]).  Read
    from the destination (X, Y): the source is x = X + 3Y, y = X. *)
Definition rho_pi (A : list Z) : list Z :=
  map (fun j =>
         let X := (j mod 5)%nat in
         let Y := (j / 5)%nat in
         let src := (((X + 3 * Y) mod 5) + 5 * X)%nat in
         rotl64 (lane A src) (lane rotation_offsets src)) indices.

Definition chi (B : list Z) : list Z :=
  map (fun i =>
         let x := (i mod 5)%nat in
         let row := (5 * (i / 5))%nat in
         Z.lxor (lane B i)
           (Z.land (not64 (lane B (((x + 1) mod 5) + row)))
                   (lane B (((x + 2) mod 5) + row)))) indices.

Definition iota (rc : Z) (A : list Z) : list Z :=
  match A with
  | [] => []
  | a :: rest => Z.lxor a rc :: rest
  end.

Definition keccak_round (A : list Z) (rc : Z) : list Z :=
  iota rc (chi (rho_pi (theta A))).

Definition keccak_f (A : list Z) : list Z :=
  fold_left keccak_round round_constants A.

(** The sponge with rate 136 bytes (capacity 512 bits). *)
Definition rate : nat := 136.

Definition pad (len : nat) : bytes :=
  let q := (rate - len mod rate)%nat in
  if (q =? 1)%nat then [x81]
  else x01 :: repeat x00 (q - 2) ++ [x80].

Fixpoint lanes_of_block (n : nat) (block : bytes) : list Z :=
  match n with
  | O => []
  | S k => le_to_Z (firstn 8 block) :: lanes_of_block k (skipn 8 block)
  end.

Definition xor_block (A : list Z) (block : bytes) : list Z :=
  let L := lanes_of_block 17 block in
  map (fun i => Z.lxor (lane A i) (lane L i)) indices.

Fixpoint absorb (fuel : nat) (A : list Z) (m : bytes) : list Z :=
  match fuel with
  | O => A
  | S f =>
      match m with
      | [] => A
      | _ => absorb f (keccak_f (xor_block A (firstn rate m))) (skipn rate m)
      end
  end.

Definition squeeze (A : list Z) : bytes :=
  flat_map (fun i => Z_to_le 8 (lane A i)) (seq 0 4).

Definition keccak256 (m : bytes) : bytes :=
  let padded := m ++ pad (length m) in
  squeeze (absorb (length padded) (repeat 0 25) padded).

End Keccak.

Definition bytes_of_string (s : string) : bytes := list_byte_of_string s.

(** ** ABI helpers *)

Module Abi.

(** [abi.encodePacked] writes a [uint256] as 32 bytes and an [address]
    as 20 bytes, most significant byte first, with no padding between
    the arguments; a string literal contributes its bytes. *)
Definition encode_uint256 (v : Z) : bytes := Z_to_be 32 v.
Definition encode_address (a : Z) : bytes := Z_to_be 20 a.
Definition encode_string (s : string) : bytes := bytes_of_string s.

(** [abi.decode(data, (uint32))]: the decoder reverts when [data] is
    shorter than one 32-byte word, and when the word does not fit the
    target type; bytes after the first word are ignored. *)
Definition decode_uint32 (data : bytes) : option Z :=
  if (length data <? 32)%nat then None
  else
    let word := be_to_Z (firstn 32 data) in
    if word <=? 2 ^ 32 - 1 then Some word else None.

(** A function selector: the first four bytes of the hash of the
    signature. *)
Definition selector (signature : string) : bytes :=
  firstn 4 (Keccak.keccak256 (bytes_of_string signature)).

End Abi.

(** [uint256(keccak256(...))] *)
Definition keccak256_uint (preimage : bytes) : Z :=
  be_to_Z (Keccak.keccak256 preimage).

(** ** Storage layout *)

Abbreviation uint256 := Z.
Abbreviation address := Z.
Abbreviation bytes32 := Z.
(** [euint32] is the library's handle type, a wrapped [bytes32]. *)
Abbreviation euint32 := Z.

Module BindingRecord.
Record t := mk {
  id : uint256;
  uploader : address;
  abiHash : bytes32;
  metadataHash : bytes32;
  encryptedSignature : euint32;
  createdAt : uint256
}.
(** What a mapping returns for a key that was never written. *)
Definition zero : t := mk 0 0 0 0 0 0.
End BindingRecord.

Module DecryptTask.
Record t := mk {
  id : uint256;
  bindingId : uint256;
  requester : address;
  completed : bool;
  createdAt : uint256
}.
Definition zero : t := mk 0 0 0 false 0.
(** [t.completed = true] through a storage reference. *)
Definition set_completed (v : bool) (x : t) : t :=
  mk (id x) (bindingId x) (requester x) v (createdAt x).
End DecryptTask.

Inductive Event :=
| BindingRegistered (id : uint256) (uploader : address)
| DecryptionRequested (taskId bindingId : uint256)
| DecryptionCompleted (taskId bindingId : uint256).

#[global] Instance Event_eq_dec : EqDecision Event.
Proof. solve_decision. Defined.

(** One outbound [FHE.requestDecryption] call, as the oracle sees it. *)
Record OracleRequest := mkOracleRequest {
  ciphertexts : list bytes32;
  callbackSelector : bytes;
  assignedId : uint256
}.

Record State := mkState {
  bindingCount : uint256;
  bindings : gmap Z BindingRecord.t;
  tasks : gmap Z DecryptTask.t;
  abiHashToBinding : gmap Z uint256;
  requestToTaskId : gmap Z uint256;
  (** effects visible outside the contract, oldest first *)
  events : list Event;
  oracleRequests : list OracleRequest
}.

Definition initial : State := mkState 0 ∅ ∅ ∅ ∅ [] [].

(** Reading a Solidity mapping: every key has a value, zero by default. *)
Definition mapping_get {V} (zero : V) (m : gmap Z V) (k : Z) : V :=
  default zero (m !! k).

(** Transaction context.  Calls to the contract's functions are taken to
    carry no ether: all of them but [receive] and [fallback] are
    non-payable, and a call with ether reverts before their body runs. *)
Record Env := mkEnv {
  msg_sender : address;
  block_timestamp : uint256
}.

(** ** Reverting computations *)

Inductive Failure :=
| Require (reason : string)      (** [require(cond, reason)] failed *)
| ArithmeticOverflow             (** checked arithmetic, Panic(0x11) *)
| OracleRejected                 (** [FHE.requestDecryption] reverted *)
| InvalidProof                   (** [FHE.checkSignatures] reverted *)
| DecodeFailed.                  (** [abi.decode] reverted *)

Inductive Result (A : Type) :=
| Ok (a : A)
| Revert (f : Failure).
Arguments Ok {A} a.
Arguments Revert {A} f.

#[global] Instance Result_ret : MRet Result := fun A a => Ok a.
#[global] Instance Result_bind : MBind Result := fun A B k r =>
  match r with
  | Ok a => k a
  | Revert f => Revert f
  end.

Definition require (cond : bool) (reason : string) : Result unit :=
  if cond then Ok tt else Revert (Require reason).

Definition checked_add (a b : uint256) : Result uint256 :=
  if a + b <=? uint256_max then Ok (a + b) else Revert ArithmeticOverflow.

Definition of_option {A} (o : option A) (f : Failure) : Result A :=
  match o with
  | Some a => Ok a
  | None => Revert f
  end.

(** ** The FHE library

    The contract imports [FHE] from the fhevm package.  Its three entry
    points used here are parameters of the development. *)

Class FHE := {
  (** unwraps an encrypted handle *)
  toBytes32 : euint32 -> bytes32;
  (** asks the oracle to decrypt; the oracle picks the request id, given
      everything this contract asked so far ([None]: the call reverts) *)
  requestDecryption : list OracleRequest -> list bytes32 -> bytes -> option uint256;
  (** [true] when the proof authenticates the cleartexts for the request;
      the library reverts otherwise *)
  checkSignatures : list OracleRequest -> uint256 -> bytes -> bytes -> bool
}.

(** ** The contract *)

Section Contract.

Context {fhe : FHE}.

(** What the two request paths hash:
    [abi.encodePacked(bindingId, block.timestamp, msg.sender)] and
    [abi.encodePacked("count", bindingId, block.timestamp)]. *)
Definition bindingPreimage (bindingId timestamp : uint256) (sender : address) : bytes :=
  Abi.encode_uint256 bindingId ++ Abi.encode_uint256 timestamp
    ++ Abi.encode_address sender.

Definition countPreimage (bindingId timestamp : uint256) : bytes :=
  Abi.encode_string "count" ++ Abi.encode_uint256 bindingId
    ++ Abi.encode_uint256 timestamp.

(** Task ids of the two request paths. *)
Definition bindingTaskId (bindingId timestamp : uint256) (sender : address) : uint256 :=
  keccak256_uint (bindingPreimage bindingId timestamp sender).

Definition countTaskId (bindingId timestamp : uint256) : uint256 :=
  keccak256_uint (countPreimage bindingId timestamp).

Definition handleDecryption_selector : bytes :=
  Abi.selector "handleDecryption(uint256,bytes,bytes)".

Definition handleCountDecryption_selector : bytes :=
  Abi.selector "handleCountDecryption(uint256,bytes,bytes)".

Definition registerBinding (env : Env) (abiHash metadataHash : bytes32)
    (encryptedSignature : euint32) (s : State) : Result (State * uint256) :=
  count ← checked_add (bindingCount s) 1;
  let id := count in
  let record :=
    BindingRecord.mk id (msg_sender env) abiHash metadataHash
      encryptedSignature (block_timestamp env) in
  Ok (mkState count
        (<[id := record]> (bindings s))
        (tasks s)
        (<[abiHash := id]> (abiHashToBinding s))
        (requestToTaskId s)
        (events s ++ [BindingRegistered id (msg_sender env)])
        (oracleRequests s),
      id).

Definition requestBindingDecryption (env : Env) (bindingId : uint256)
    (s : State) : Result (State * uint256) :=
  let rec := mapping_get BindingRecord.zero (bindings s) bindingId in
  _ ← require (negb (BindingRecord.id rec =? 0)) "Invalid binding";
  let taskId := bindingTaskId bindingId (block_timestamp env) (msg_sender env) in
  let tasks1 :=
    <[taskId := DecryptTask.mk taskId bindingId (msg_sender env) false
                  (block_timestamp env)]> (tasks s) in
  let cts := [toBytes32 (BindingRecord.encryptedSignature rec)] in
  reqId ← of_option
    (requestDecryption (oracleRequests s) cts handleDecryption_selector)
    OracleRejected;
  Ok (mkState (bindingCount s)
        (bindings s)
        tasks1
        (abiHashToBinding s)
        (<[reqId := taskId]> (requestToTaskId s))
        (events s ++ [DecryptionRequested taskId bindingId])
        (oracleRequests s ++ [mkOracleRequest cts handleDecryption_selector reqId]),
      taskId).

Definition handleDecryption (requestId : uint256) (cleartexts proof : bytes)
    (s : State) : Result State :=
  let taskId := mapping_get 0 (requestToTaskId s) requestId in
  _ ← require (negb (taskId =? 0)) "Unknown request";
  let t := mapping_get DecryptTask.zero (tasks s) taskId in
  _ ← require (negb (DecryptTask.completed t)) "Already completed";
  _ ← (if checkSignatures (oracleRequests s) requestId cleartexts proof
       then Ok tt else Revert InvalidProof);
  Ok (mkState (bindingCount s)
        (bindings s)
        (<[taskId := DecryptTask.set_completed true t]> (tasks s))
        (abiHashToBinding s)
        (requestToTaskId s)
        (events s ++ [DecryptionCompleted taskId (DecryptTask.bindingId t)])
        (oracleRequests s)).

Definition lookupBindingByAbi (abiHash : bytes32) (s : State) : uint256 :=
  mapping_get 0 (abiHashToBinding s) abiHash.

Definition getBinding (id : uint256) (s : State)
  : address * bytes32 * bytes32 * euint32 * uint256 :=
  let b := mapping_get BindingRecord.zero (bindings s) id in
  (BindingRecord.uploader b, BindingRecord.abiHash b, BindingRecord.metadataHash b,
   BindingRecord.encryptedSignature b, BindingRecord.createdAt b).

Definition isTaskCompleted (taskId : uint256) (s : State) : bool :=
  DecryptTask.completed (mapping_get DecryptTask.zero (tasks s) taskId).

Definition submitExternalEncryptedCount (env : Env) (count : euint32)
    (s : State) : Result (State * uint256) :=
  newCount ← checked_add (bindingCount s) 1;
  let id := newCount in
  let record :=
    BindingRecord.mk id (msg_sender env) 0 0 count (block_timestamp env) in
  Ok (mkState newCount
        (<[id := record]> (bindings s))
        (tasks s)
        (abiHashToBinding s)
        (requestToTaskId s)
        (events s ++ [BindingRegistered id (msg_sender env)])
        (oracleRequests s),
      id).

Definition requestCountDecryption (env : Env) (bindingId : uint256)
    (s : State) : Result (State * uint256) :=
  let rec := mapping_get BindingRecord.zero (bindings s) bindingId in
  _ ← require (negb (BindingRecord.id rec =? 0)) "Not found";
  let cts := [toBytes32 (BindingRecord.encryptedSignature rec)] in
  reqId ← of_option
    (requestDecryption (oracleRequests s) cts handleCountDecryption_selector)
    OracleRejected;
  let taskId := countTaskId bindingId (block_timestamp env) in
  let correlation := <[reqId := taskId]> (requestToTaskId s) in
  Ok (mkState (bindingCount s)
        (bindings s)
        (<[taskId := DecryptTask.mk taskId bindingId (msg_sender env) false
                       (block_timestamp env)]> (tasks s))
        (abiHashToBinding s)
        correlation
        (events s ++ [DecryptionRequested taskId bindingId])
        (oracleRequests s
           ++ [mkOracleRequest cts handleCountDecryption_selector reqId]),
      taskId).

Definition handleCountDecryption (requestId : uint256) (cleartexts proof : bytes)
    (s : State) : Result State :=
  let taskId := mapping_get 0 (requestToTaskId s) requestId in
  _ ← require (negb (taskId =? 0)) "Unknown request";
  let t := mapping_get DecryptTask.zero (tasks s) taskId in
  _ ← require (negb (DecryptTask.completed t)) "Already completed";
  _ ← (if checkSignatures (oracleRequests s) requestId cleartexts proof
       then Ok tt else Revert InvalidProof);
  _ ← of_option (Abi.decode_uint32 cleartexts) DecodeFailed;
  Ok (mkState (bindingCount s)
        (bindings s)
        (<[taskId := DecryptTask.set_completed true t]> (tasks s))
        (abiHashToBinding s)
        (requestToTaskId s)
        (events s ++ [DecryptionCompleted taskId (DecryptTask.bindingId t)])
        (oracleRequests s)).

(** ** Transactions

    A call either commits its new state or reverts, in which case the
    storage, the event log and the outbound calls are those from before
    the call. *)

Inductive Call :=
| RegisterBinding (abiHash metadataHash : bytes32) (encryptedSignature : euint32)
| RequestBindingDecryption (bindingId : uint256)
| HandleDecryption (requestId : uint256) (cleartexts proof : bytes)
| SubmitExternalEncryptedCount (count : euint32)
| RequestCountDecryption (bindingId : uint256)
| HandleCountDecryption (requestId : uint256) (cleartexts proof : bytes)
| Receive.  (** [receive()] and [fallback()]: accept and do nothing *)

(** The outcome of a call: the new state and the returned value, if the
    function returns one. *)
Definition call (env : Env) (c : Call) (s : State) : Result (State * option uint256) :=
  match c with
  | RegisterBinding a m e =>
      r ← registerBinding env a m e s; Ok (r.1, Some r.2)
  | RequestBindingDecryption b =>
      r ← requestBindingDecryption env b s; Ok (r.1, Some r.2)
  | HandleDecryption q c p =>
      s' ← handleDecryption q c p s; Ok (s', None)
  | SubmitExternalEncryptedCount e =>
      r ← submitExternalEncryptedCount env e s; Ok (r.1, Some r.2)
  | RequestCountDecryption b =>
      r ← requestCountDecryption env b s; Ok (r.1, Some r.2)
  | HandleCountDecryption q c p =>
      s' ← handleCountDecryption q c p s; Ok (s', None)
  | Receive => Ok (s, None)
  end.

(** The state after the transaction. *)
Definition commit {A} (s : State) (r : Result (State * A)) : State :=
  match r with
  | Ok (s', _) => s'
  | Revert _ => s
  end.

Definition transact (s : State) (tx : Env * Call) : State :=
  commit s (call tx.1 tx.2 s).

(** A history of transactions, oldest first. *)
Definition run (txs : list (Env * Call)) (s : State) : State :=
  fold_left transact txs s.

Inductive reachable : State -> Prop :=
| reachable_initial : reachable initial
| reachable_transact s tx : reachable s -> reachable (transact s tx).

End Contract.

(** ** Notions the properties are stated with *)

Section Notions.

Context {fhe : FHE}.

(** The task a request id is correlated with (0: none). *)
Definition correlated (requestId : uint256) (s : State) : uint256 :=
  mapping_get 0 (requestToTaskId s) requestId.

(** The state both completion handlers commit for task [taskId]. *)
Definition completedState (taskId : uint256) (s : State) : State :=
  let t := mapping_get DecryptTask.zero (tasks s) taskId in
  mkState (bindingCount s) (bindings s)
    (<[taskId := DecryptTask.set_completed true t]> (tasks s))
    (abiHashToBinding s) (requestToTaskId s)
    (events s ++ [DecryptionCompleted taskId (DecryptTask.bindingId t)])
    (oracleRequests s).

(** A call is a completion callback for request [requestId], through
    either handler. *)
Definition completionOf (requestId : uint256) (c : Call) : Prop :=
  match c with
  | HandleDecryption q _ _ | HandleCountDecryption q _ _ => q = requestId
  | _ => False
  end.

(** A call is a decryption request, on either path. *)
Definition isRequest (c : Call) : Prop :=
  match c with
  | RequestBindingDecryption _ | RequestCountDecryption _ => True
  | _ => False
  end.

(** What a request hashes into its task id, and the binding it is for. *)
Definition requestTaskId (env : Env) (c : Call) : uint256 :=
  match c with
  | RequestBindingDecryption b =>
      bindingTaskId b (block_timestamp env) (msg_sender env)
  | RequestCountDecryption b => countTaskId b (block_timestamp env)
  | _ => 0
  end.

Definition requestedBinding (c : Call) : uint256 :=
  match c with
  | RequestBindingDecryption b | RequestCountDecryption b => b
  | _ => 0
  end.

(** Two requests agree on everything that is hashed: the path, the
    binding id, the block timestamp and, on the binding path, the
    requester. *)
Definition sameHashedInputs (env1 : Env) (c1 : Call) (env2 : Env) (c2 : Call) : Prop :=
  match c1, c2 with
  | RequestBindingDecryption b1, RequestBindingDecryption b2 =>
      b1 = b2 /\ block_timestamp env1 = block_timestamp env2
      /\ msg_sender env1 = msg_sender env2
  | RequestCountDecryption b1, RequestCountDecryption b2 =>
      b1 = b2 /\ block_timestamp env1 = block_timestamp env2
  | _, _ => False
  end.

(** The task a request stores. *)
Definition openedTask (env : Env) (c : Call) (taskId : uint256) : DecryptTask.t :=
  DecryptTask.mk taskId (requestedBinding c) (msg_sender env) false (block_timestamp env).

(** The shapes of a committed transaction. *)
Inductive Committed (env : Env) (s s' : State) : Call -> option uint256 -> Prop :=
| committed_register a m e id :
    registerBinding env a m e s = Ok (s', id) ->
    Committed env s s' (RegisterBinding a m e) (Some id)
| committed_submit e id :
    submitExternalEncryptedCount env e s = Ok (s', id) ->
    Committed env s s' (SubmitExternalEncryptedCount e) (Some id)
| committed_request b t :
    requestBindingDecryption env b s = Ok (s', t) ->
    Committed env s s' (RequestBindingDecryption b) (Some t)
| committed_request_count b t :
    requestCountDecryption env b s = Ok (s', t) ->
    Committed env s s' (RequestCountDecryption b) (Some t)
| committed_handle r c p :
    handleDecryption r c p s = Ok s' ->
    Committed env s s' (HandleDecryption r c p) None
| committed_handle_count r c p :
    handleCountDecryption r c p s = Ok s' ->
    Committed env s s' (HandleCountDecryption r c p) None
| committed_receive :
    s' = s -> Committed env s s' Receive None.

(** Every correlation entry leads to a stored task carrying its own id. *)
Definition entriesLeadToTasks (s : State) : Prop :=
  forall r, correlated r s <> 0 ->
    exists t, tasks s !! correlated r s = Some t
              /\ DecryptTask.id t = correlated r s.

(** The id a transaction returned from [registerBinding] for content hash
    [h], if it is such a call and it committed. *)
Definition registeredId (h : bytes32) (s : State) (tx : Env * Call) : list uint256 :=
  match tx.2 with
  | RegisterBinding a m e =>
      match registerBinding tx.1 a m e s with
      | Ok (_, id) => if a =? h then [id] else []
      | Revert _ => []
      end
  | _ => []
  end.

(** The task id a transaction returned from a decryption request, if it is
    one and it committed. *)
Definition openedId (s : State) (tx : Env * Call) : list uint256 :=
  match tx.2 with
  | RequestBindingDecryption b =>
      match requestBindingDecryption tx.1 b s with
      | Ok (_, t) => [t]
      | Revert _ => []
      end
  | RequestCountDecryption b =>
      match requestCountDecryption tx.1 b s with
      | Ok (_, t) => [t]
      | Revert _ => []
      end
  | _ => []
  end.

(** What a history started in [s] produced, oldest first. *)
Fixpoint collect {A} (f : State -> Env * Call -> list A)
    (txs : list (Env * Call)) (s : State) : list A :=
  match txs with
  | [] => []
  | tx :: rest => f s tx ++ collect f rest (transact s tx)
  end.

(** Ids registered under content hash [h], and task ids opened. *)
Definition registeredWith (h : bytes32) := collect (registeredId h).
Definition openedTasks := collect openedId.

(** Bindings are stored under the ids 1 .. [bindingCount], each carrying
    its own id. *)
Definition bindingsNumbered (s : State) : Prop :=
  0 <= bindingCount s
  /\ forall b,
       match bindings s !! b with
       | Some rec => 1 <= b <= bindingCount s /\ BindingRecord.id rec = b
       | None => b < 1 \/ bindingCount s < b
       end.

(** Every stored task and every correlated task id is among [opened]. *)
Definition tracked (opened : list uint256) (s : State) : Prop :=
  (forall t, is_Some (tasks s !! t) -> t ∈ opened)
  /\ (forall r, correlated r s <> 0 -> correlated r s ∈ opened).

End Notions.

(** ** Invariants of the storage and the logs *)

Section Invariants.

Context {fhe : FHE}.

(** Every correlation entry is keyed by an id the oracle assigned. *)
Definition entriesAssigned (s : State) : Prop :=
  forall r t, requestToTaskId s !! r = Some t ->
    r ∈ assignedId <$> oracleRequests s.

(** The [BindingRegistered] events are the stored bindings with their
    uploaders. *)
Definition registrationsLogged (s : State) : Prop :=
  forall id u,
    BindingRegistered id u ∈ events s
    <-> exists rec, bindings s !! id = Some rec /\ BindingRecord.uploader rec = u.

(** The content-hash index only points at bindings with that hash. *)
Definition indexSound (s : State) : Prop :=
  forall h id, abiHashToBinding s !! h = Some id ->
    exists rec, bindings s !! id = Some rec /\ BindingRecord.abiHash rec = h.

(** Every stored task carries its own id, is for a stored binding and has
    its [DecryptionRequested] event in the log. *)
Definition tasksWellFormed (s : State) : Prop :=
  forall t task, tasks s !! t = Some task ->
    DecryptTask.id task = t
    /\ 1 <= DecryptTask.bindingId task <= bindingCount s
    /\ DecryptionRequested t (DecryptTask.bindingId task) ∈ events s.

(** Every completed task has a non-zero id and its [DecryptionCompleted]
    event in the log. *)
Definition completionsLogged (s : State) : Prop :=
  forall t, isTaskCompleted t s = true ->
    t <> 0
    /\ DecryptionCompleted t
         (DecryptTask.bindingId (mapping_get DecryptTask.zero (tasks s) t))
       ∈ events s.

(** Every request sent to the oracle names one of the two callbacks and
    the single ciphertext handle of a stored binding. *)
Definition oracleAsksStored (s : State) : Prop :=
  forall q, q ∈ oracleRequests s ->
    (callbackSelector q = handleDecryption_selector
     \/ callbackSelector q = handleCountDecryption_selector)
    /\ exists b rec,
         bindings s !! b = Some rec
         /\ ciphertexts q = [toBytes32 (BindingRecord.encryptedSignature rec)].

(** The binding ids announced by the [BindingRegistered] events of a log,
    in order. *)
Definition registeredIds (evs : list Event) : list uint256 :=
  flat_map (fun e => match e with
                     | BindingRegistered id _ => [id]
                     | _ => []
                     end) evs.

(** The bytes a request hashes into its task id. *)
Definition requestPreimage (env : Env) (c : Call) : bytes :=
  match c with
  | RequestBindingDecryption b =>
      bindingPreimage b (block_timestamp env) (msg_sender env)
  | RequestCountDecryption b => countPreimage b (block_timestamp env)
  | _ => []
  end.

(** The inputs of a request lie in the ranges of their Solidity types. *)
Definition inTypeRanges (env : Env) (c : Call) : Prop :=
  0 <= requestedBinding c <= uint256_max
  /\ 0 <= block_timestamp env <= uint256_max
  /\ 0 <= msg_sender env < 2 ^ 160.

(** The request ids the oracle assigned during one transaction: those of
    the requests the transaction added to the oracle log. *)
Definition assignedNow (s : State) (tx : Env * Call) : list uint256 :=
  assignedId <$> drop (length (oracleRequests s)) (oracleRequests (transact s tx)).

(** The request ids the oracle assigned during a history. *)
Definition assignedIds := collect assignedNow.

(** The number of [DecryptionCompleted] events of a task in a log. *)
Definition isCompletionOf (taskId : uint256) (e : Event) : bool :=
  match e with
  | DecryptionCompleted t _ => t =? taskId
  | _ => false
  end.

Definition completionCount (taskId : uint256) (evs : list Event) : nat :=
  length (List.filter (isCompletionOf taskId) evs).

End Invariants.

(** ** A concrete oracle

    A stand-in for the library, used to run the contract on concrete
    histories: handles are their own [bytes32]; request ids count up from
    0; a proof is accepted when it is the hash of the request id followed
    by the cleartexts. *)

Fixpoint bytes_eqb (a b : bytes) : bool :=
  match a, b with
  | [], [] => true
  | x :: a', y :: b' => Byte.eqb x y && bytes_eqb a' b'
  | _, _ => false
  end.

Definition expectedProof (requestId : uint256) (cleartexts : bytes) : bytes :=
  Keccak.keccak256 (Abi.encode_uint256 requestId ++ cleartexts).

Definition CountingOracle : FHE := {|
  toBytes32 h := h;
  requestDecryption history _ _ := Some (Z.of_nat (length history));
  checkSignatures _ requestId cleartexts proof :=
    bytes_eqb proof (expectedProof requestId cleartexts)
|}.

(** Two callers and two blocks. *)
Definition alice : address := 0xA11CE.
Definition bob : address := 0xB0B.
Definition alice_block1 : Env := mkEnv alice 1000.
Definition alice_block2 : Env := mkEnv alice 1012.
Definition bob_block2 : Env := mkEnv bob 1012.

(** The cleartext word for the value 7, as [abi.encode(uint32(7))]. *)
Definition seven : bytes := Abi.encode_uint256 7.

(** Alice registers a binding and asks for its decryption: one pending
    task, correlated with request 0. *)
Definition pendingHistory : list (Env * Call) :=
  [ (alice_block1, RegisterBinding 11 22 33);
    (alice_block2, RequestBindingDecryption 1) ].

Definition pendingState : State := run (fhe := CountingOracle) pendingHistory initial.

(** The oracle's answer to request 0, and a copy with a wrong proof. *)
Definition goodCallback : Call := HandleDecryption 0 seven (expectedProof 0 seven).
Definition forgedCallback : Call := HandleDecryption 0 seven [].

Definition completedOnce : State :=
  transact (fhe := CountingOracle) pendingState (bob_block2, goodCallback).

(** The count path: Alice submits an encrypted count and asks for it. *)
Definition countPendingHistory : list (Env * Call) :=
  [ (alice_block1, SubmitExternalEncryptedCount 33);
    (alice_block2, RequestCountDecryption 1) ].

Definition countPendingState : State :=
  run (fhe := CountingOracle) countPendingHistory initial.

(** An authentic answer whose cleartexts are empty, hence not a [uint32]. *)
Definition undecodableCallback : Call := HandleCountDecryption 0 [] (expectedProof 0 []).

(** The count path with an encrypted count submitted by Alice. *)
Definition countSubmitted : State :=
  run (fhe := CountingOracle) [(alice_block1, SubmitExternalEncryptedCount 33)] initial.

Definition countRequestedByAlice : State :=
  transact (fhe := CountingOracle) countSubmitted
    (alice_block2, RequestCountDecryption 1).

Definition registered : State :=
  run (fhe := CountingOracle) [(alice_block1, RegisterBinding 11 22 33)] initial.

(** The completed task of [completedOnce], opened again by Alice in the
    same block. *)
Definition reopenedState : State :=
  transact (fhe := CountingOracle) completedOnce
    (alice_block2, RequestBindingDecryption 1).

(** Alice and Bob both ask for binding 1: two pending tasks, correlated
    with requests 0 and 1. *)
Definition twoPendingState : State :=
  transact (fhe := CountingOracle) pendingState
    (bob_block2, RequestBindingDecryption 1).

(** Three registrations, two under content hash 11, around a submitted
    count (which is stored with a zero hash and not indexed). *)
Definition mixedHistory : list (Env * Call) :=
  [ (alice_block1, RegisterBinding 11 22 33);
    (bob_block2, SubmitExternalEncryptedCount 5);
    (bob_block2, RegisterBinding 11 0 44);
    (alice_block2, RegisterBinding 12 0 55) ].

(** The hash is opaque to the proofs: they never look inside it.
    Evaluation on concrete inputs goes through [vm_compute]. *)
#[global] Opaque keccak256_uint.
#[global] Opaque Abi.selector.
Arguments keccak256_uint : simpl never.
Arguments bindingPreimage : simpl never.
Arguments countPreimage : simpl never.
Arguments bindingTaskId : simpl never.
Arguments countTaskId : simpl never.
Arguments handleDecryption_selector : simpl never.
Arguments handleCountDecryption_selector : simpl never.

(** * Properties *)

(** ** The hash and the encodings *)

(** The hash agrees with Keccak-256 on the usual test vectors, and the
    selectors are those of the two callbacks. *)
Example keccak256_empty :
  be_to_Z (Keccak.keccak256 [])
  = 0xc5d2460186f7233c927e7db2dcc703c0e500b653ca82273b7bfad8045d85a470.
Proof. vm_compute. reflexivity. Qed.

Example keccak256_abc :
  be_to_Z (Keccak.keccak256 (bytes_of_string "abc"))
  = 0x4e03657aea45a94fc7d47ba826c8d667c0d1e6e33a64a036ec44f58fa12d6c45.
Proof. vm_compute. reflexivity. Qed.

(** A message longer than one block of the sponge. *)
Example keccak256_two_blocks :
  be_to_Z (Keccak.keccak256 (repeat "q"%byte 200))
  = 0x3d23b692dad6cbb67401623f212866e892d83cb548bf91fecc73efbe36448562.
Proof. vm_compute. reflexivity. Qed.

Example selectors :
  be_to_Z handleDecryption_selector = 0x07669507
  /\ be_to_Z handleCountDecryption_selector = 0x40aad559.
Proof. vm_compute. split; reflexivity. Qed.

Example decode_uint32_cases :
  Abi.decode_uint32 (Abi.encode_uint256 7) = Some 7
  /\ Abi.decode_uint32 (Abi.encode_uint256 7 ++ [x00]) = Some 7
  /\ Abi.decode_uint32 (Abi.encode_uint256 (2 ^ 32)) = None
  /\ Abi.decode_uint32 (repeat x00 31) = None.
Proof. vm_compute. repeat split; reflexivity. Qed.

Lemma byte_to_Z_to_byte z : byte_to_Z (Z_to_byte z) = z mod 256.
Proof.
  unfold byte_to_Z, Z_to_byte.
  assert (Hr : 0 <= z mod 256 < 256) by (apply Z.mod_pos_bound; lia).
  destruct (Byte.of_N (Z.to_N (z mod 256))) as [b|] eqn:E.
  - apply Byte.to_of_N in E. rewrite E. lia.
  - apply Byte.of_N_None_iff in E. lia.
Qed.

Lemma length_Z_to_be n z : length (Z_to_be n z) = n.
Proof.
  revert z. induction n as [| n IH]; intros z; [reflexivity |].
  cbn [Z_to_be]. rewrite length_app, IH. cbn. lia.
Qed.

Lemma be_to_Z_snoc l b : be_to_Z (l ++ [b]) = be_to_Z l * 256 + byte_to_Z b.
Proof. unfold be_to_Z. rewrite fold_left_app. reflexivity. Qed.

(** Reading back [n] big-endian bytes gives the value modulo [256^n]. *)
Lemma be_to_Z_to_be n z : be_to_Z (Z_to_be n z) = z mod 256 ^ Z.of_nat n.
Proof.
  revert z. induction n as [| n IH]; intros z.
  - cbn. by rewrite Z.mod_1_r.
  - cbn [Z_to_be]. rewrite be_to_Z_snoc, IH, byte_to_Z_to_byte.
    rewrite Nat2Z.inj_succ, Z.pow_succ_r by lia.
    rewrite (Z.rem_mul_r z 256 (256 ^ Z.of_nat n)) by lia. lia.
Qed.

Lemma Z_to_be_inj n a b :
  0 <= a < 256 ^ Z.of_nat n -> 0 <= b < 256 ^ Z.of_nat n ->
  Z_to_be n a = Z_to_be n b -> a = b.
Proof.
  intros Ha Hb E. apply (f_equal be_to_Z) in E.
  rewrite !be_to_Z_to_be in E. by rewrite !Z.mod_small in E.
Qed.

(** Within the ranges of their types, different inputs of a request give
    different byte strings to hash (and the two paths never hash the same
    string): two task ids coincide only for equal inputs or through a
    collision of the hash. *)
Lemma bindingPreimage_inj b1 t1 a1 b2 t2 a2 :
  0 <= b1 <= uint256_max -> 0 <= t1 <= uint256_max -> 0 <= a1 < 2 ^ 160 ->
  0 <= b2 <= uint256_max -> 0 <= t2 <= uint256_max -> 0 <= a2 < 2 ^ 160 ->
  bindingPreimage b1 t1 a1 = bindingPreimage b2 t2 a2 ->
  b1 = b2 /\ t1 = t2 /\ a1 = a2.
Proof.
  unfold bindingPreimage, Abi.encode_uint256, Abi.encode_address, uint256_max.
  intros Hb1 Ht1 Ha1 Hb2 Ht2 Ha2 E.
  apply app_inj_1 in E as [Eb E]; [| by rewrite !length_Z_to_be].
  apply app_inj_1 in E as [Et Ea]; [| by rewrite !length_Z_to_be].
  repeat split; eapply Z_to_be_inj; try eassumption;
    change (256 ^ Z.of_nat 32) with (2 ^ 256);
    change (256 ^ Z.of_nat 20) with (2 ^ 160); lia.
Qed.

Lemma countPreimage_inj b1 t1 b2 t2 :
  0 <= b1 <= uint256_max -> 0 <= t1 <= uint256_max ->
  0 <= b2 <= uint256_max -> 0 <= t2 <= uint256_max ->
  countPreimage b1 t1 = countPreimage b2 t2 ->
  b1 = b2 /\ t1 = t2.
Proof.
  unfold countPreimage, Abi.encode_uint256, uint256_max.
  intros Hb1 Ht1 Hb2 Ht2 E.
  apply app_inv_head in E.
  apply app_inj_1 in E as [Eb Et]; [| by rewrite !length_Z_to_be].
  split; eapply Z_to_be_inj; try eassumption;
    change (256 ^ Z.of_nat 32) with (2 ^ 256); lia.
Qed.

Lemma preimages_of_the_two_paths_differ b1 t1 a1 b2 t2 :
  bindingPreimage b1 t1 a1 <> countPreimage b2 t2.
Proof.
  intros E. apply (f_equal length) in E.
  unfold bindingPreimage, countPreimage, Abi.encode_uint256, Abi.encode_address in E.
  rewrite !length_app, !length_Z_to_be in E. cbn in E. lia.
Qed.

(** ** Basic facts about the reverting computations *)

Lemma checked_add_ok a b c :
  checked_add a b = Ok c -> c = a + b /\ a + b <= uint256_max.
Proof.
  unfold checked_add. destruct (a + b <=? uint256_max) eqn:E; [| discriminate].
  intros [= <-]. apply Z.leb_le in E. auto.
Qed.

Lemma mapping_get_insert_eq {V} (zero : V) (m : gmap Z V) k v :
  mapping_get zero (<[k := v]> m) k = v.
Proof. unfold mapping_get. by rewrite lookup_insert_eq. Qed.

Lemma mapping_get_insert_ne {V} (zero : V) (m : gmap Z V) k k' v :
  k <> k' -> mapping_get zero (<[k := v]> m) k' = mapping_get zero m k'.
Proof. intros. unfold mapping_get. by rewrite lookup_insert_ne. Qed.

Lemma mapping_get_None {V} (zero : V) (m : gmap Z V) k :
  m !! k = None -> mapping_get zero m k = zero.
Proof. intros E. unfold mapping_get. by rewrite E. Qed.

(** Unfolds the sequencing of reverting steps. *)
Ltac unfold_bind := unfold mbind, Result_bind in *.

(** ** The binding store *)

Lemma registerBinding_inv env a m e s s' id :
  registerBinding env a m e s = Ok (s', id) ->
  id = bindingCount s + 1 /\
  id <= uint256_max /\
  s' = mkState id
         (<[id := BindingRecord.mk id (msg_sender env) a m e (block_timestamp env)]>
            (bindings s))
         (tasks s)
         (<[a := id]> (abiHashToBinding s))
         (requestToTaskId s)
         (events s ++ [BindingRegistered id (msg_sender env)])
         (oracleRequests s).
Proof.
  unfold registerBinding. unfold_bind.
  destruct (checked_add (bindingCount s) 1) as [c|] eqn:E; [| discriminate].
  apply checked_add_ok in E as [-> Hle].
  intros [= <- <-]. auto.
Qed.

(** C8. After a successful [registerBinding], [getBinding] on the returned
    id gives back the caller as owner together with the content hash, the
    metadata hash and the ciphertext handle that were supplied (and the
    block timestamp as creation time), and [bindingCount] has grown by
    exactly one; the returned id is the new count. *)
Theorem register_then_get env abiHash metadataHash encryptedSignature s s' id :
  registerBinding env abiHash metadataHash encryptedSignature s = Ok (s', id) ->
  getBinding id s'
    = (msg_sender env, abiHash, metadataHash, encryptedSignature, block_timestamp env)
  /\ bindingCount s' = bindingCount s + 1
  /\ id = bindingCount s'.
Proof.
  intros H. apply registerBinding_inv in H as (Hid & _ & ->).
  unfold getBinding. cbn [bindings bindingCount].
  rewrite mapping_get_insert_eq. cbn. auto.
Qed.

(** The first registration on the initial state. *)
Lemma register_then_get_witness :
  exists s', registerBinding alice_block1 11 22 33 initial = Ok (s', 1)
  /\ getBinding 1 s' = (alice, 11, 22, 33, 1000)
  /\ bindingCount s' = 1.
Proof.
  eexists. split; [reflexivity |].
  destruct (register_then_get alice_block1 11 22 33 initial _ 1 eq_refl)
    as (Hget & Hcount & _).
  split; [exact Hget | exact Hcount].
Defined.

(** ** The coordinator's functions, inverted *)

Section Coordinator.

Context {fhe : FHE}.

(** The handlers as decision trees over the four checks. *)
Lemma handleDecryption_cases requestId cleartexts proof s :
  handleDecryption requestId cleartexts proof s =
    let taskId := correlated requestId s in
    if taskId =? 0 then Revert (Require "Unknown request")
    else if isTaskCompleted taskId s then Revert (Require "Already completed")
    else if checkSignatures (oracleRequests s) requestId cleartexts proof
    then Ok (completedState taskId s)
    else Revert InvalidProof.
Proof.
  unfold handleDecryption, correlated, isTaskCompleted, completedState, require.
  unfold_bind. cbv zeta.
  destruct (mapping_get 0 (requestToTaskId s) requestId =? 0); cbn; [reflexivity |].
  destruct (DecryptTask.completed _); cbn; [reflexivity |].
  destruct (checkSignatures _ _ _ _); reflexivity.
Qed.

Lemma handleCountDecryption_cases requestId cleartexts proof s :
  handleCountDecryption requestId cleartexts proof s =
    let taskId := correlated requestId s in
    if taskId =? 0 then Revert (Require "Unknown request")
    else if isTaskCompleted taskId s then Revert (Require "Already completed")
    else if checkSignatures (oracleRequests s) requestId cleartexts proof
    then match Abi.decode_uint32 cleartexts with
         | Some _ => Ok (completedState taskId s)
         | None => Revert DecodeFailed
         end
    else Revert InvalidProof.
Proof.
  unfold handleCountDecryption, correlated, isTaskCompleted, completedState, require.
  unfold_bind. cbv zeta.
  destruct (mapping_get 0 (requestToTaskId s) requestId =? 0); cbn; [reflexivity |].
  destruct (DecryptTask.completed _); cbn; [reflexivity |].
  destruct (checkSignatures _ _ _ _); [| reflexivity].
  destruct (Abi.decode_uint32 cleartexts); reflexivity.
Qed.

Lemma isTaskCompleted_completedState taskId s :
  isTaskCompleted taskId (completedState taskId s) = true.
Proof.
  unfold isTaskCompleted, completedState. cbn [tasks].
  by rewrite mapping_get_insert_eq.
Qed.

Lemma isTaskCompleted_completedState_ne taskId other s :
  taskId <> other ->
  isTaskCompleted other (completedState taskId s) = isTaskCompleted other s.
Proof.
  intros Hne. unfold isTaskCompleted, completedState. cbn [tasks].
  by rewrite mapping_get_insert_ne.
Qed.

Lemma correlated_completedState taskId requestId s :
  correlated requestId (completedState taskId s) = correlated requestId s.
Proof. reflexivity. Qed.

(** A handler that commits went through all its checks. *)
Lemma handleDecryption_inv requestId cleartexts proof s s' :
  handleDecryption requestId cleartexts proof s = Ok s' ->
  correlated requestId s <> 0 /\
  isTaskCompleted (correlated requestId s) s = false /\
  checkSignatures (oracleRequests s) requestId cleartexts proof = true /\
  s' = completedState (correlated requestId s) s.
Proof.
  rewrite handleDecryption_cases. cbv zeta.
  destruct (correlated requestId s =? 0) eqn:E0; [discriminate |].
  destruct (isTaskCompleted _ s); [discriminate |].
  destruct (checkSignatures _ _ _ _); [| discriminate].
  intros [= <-]. apply Z.eqb_neq in E0. auto.
Qed.

Lemma handleCountDecryption_inv requestId cleartexts proof s s' :
  handleCountDecryption requestId cleartexts proof s = Ok s' ->
  correlated requestId s <> 0 /\
  isTaskCompleted (correlated requestId s) s = false /\
  checkSignatures (oracleRequests s) requestId cleartexts proof = true /\
  is_Some (Abi.decode_uint32 cleartexts) /\
  s' = completedState (correlated requestId s) s.
Proof.
  rewrite handleCountDecryption_cases. cbv zeta.
  destruct (correlated requestId s =? 0) eqn:E0; [discriminate |].
  destruct (isTaskCompleted _ s); [discriminate |].
  destruct (checkSignatures _ _ _ _); [| discriminate].
  destruct (Abi.decode_uint32 cleartexts) eqn:Ed; [| discriminate].
  intros [= <-]. apply Z.eqb_neq in E0. eauto 6.
Qed.

(** The request paths, inverted. *)
Lemma requestBindingDecryption_inv env bindingId s s' taskId :
  requestBindingDecryption env bindingId s = Ok (s', taskId) ->
  let rec := mapping_get BindingRecord.zero (bindings s) bindingId in
  let cts := [toBytes32 (BindingRecord.encryptedSignature rec)] in
  BindingRecord.id rec <> 0 /\
  taskId = bindingTaskId bindingId (block_timestamp env) (msg_sender env) /\
  exists reqId,
    requestDecryption (oracleRequests s) cts handleDecryption_selector = Some reqId /\
    s' = mkState (bindingCount s) (bindings s)
           (<[taskId := DecryptTask.mk taskId bindingId (msg_sender env) false
                          (block_timestamp env)]> (tasks s))
           (abiHashToBinding s)
           (<[reqId := taskId]> (requestToTaskId s))
           (events s ++ [DecryptionRequested taskId bindingId])
           (oracleRequests s ++ [mkOracleRequest cts handleDecryption_selector reqId]).
Proof.
  unfold requestBindingDecryption, require, of_option. unfold_bind. cbv zeta.
  destruct (BindingRecord.id _ =? 0) eqn:E0; cbn; [discriminate |].
  destruct (requestDecryption _ _ _) as [reqId|] eqn:Er; [| discriminate].
  intros [= <- <-]. apply Z.eqb_neq in E0. eauto.
Qed.

Lemma requestCountDecryption_inv env bindingId s s' taskId :
  requestCountDecryption env bindingId s = Ok (s', taskId) ->
  let rec := mapping_get BindingRecord.zero (bindings s) bindingId in
  let cts := [toBytes32 (BindingRecord.encryptedSignature rec)] in
  BindingRecord.id rec <> 0 /\
  taskId = countTaskId bindingId (block_timestamp env) /\
  exists reqId,
    requestDecryption (oracleRequests s) cts handleCountDecryption_selector = Some reqId /\
    s' = mkState (bindingCount s) (bindings s)
           (<[taskId := DecryptTask.mk taskId bindingId (msg_sender env) false
                          (block_timestamp env)]> (tasks s))
           (abiHashToBinding s)
           (<[reqId := taskId]> (requestToTaskId s))
           (events s ++ [DecryptionRequested taskId bindingId])
           (oracleRequests s
              ++ [mkOracleRequest cts handleCountDecryption_selector reqId]).
Proof.
  unfold requestCountDecryption, require, of_option. unfold_bind. cbv zeta.
  destruct (BindingRecord.id _ =? 0) eqn:E0; cbn; [discriminate |].
  destruct (requestDecryption _ _ _) as [reqId|] eqn:Er; [| discriminate].
  intros [= <- <-]. apply Z.eqb_neq in E0. eauto.
Qed.

End Coordinator.

(** ** What a transaction can be *)

Section Transactions.

Context {fhe : FHE}.

Lemma submitExternalEncryptedCount_inv env e s s' id :
  submitExternalEncryptedCount env e s = Ok (s', id) ->
  id = bindingCount s + 1 /\
  id <= uint256_max /\
  s' = mkState id
         (<[id := BindingRecord.mk id (msg_sender env) 0 0 e (block_timestamp env)]>
            (bindings s))
         (tasks s) (abiHashToBinding s) (requestToTaskId s)
         (events s ++ [BindingRegistered id (msg_sender env)])
         (oracleRequests s).
Proof.
  unfold submitExternalEncryptedCount. unfold_bind.
  destruct (checked_add (bindingCount s) 1) as [c|] eqn:E; [| discriminate].
  apply checked_add_ok in E as [-> Hle].
  intros [= <- <-]. auto.
Qed.

Lemma call_inv env c s s' v :
  call env c s = Ok (s', v) -> Committed env s s' c v.
Proof.
  destruct c; cbn [call]; unfold_bind.
  - destruct (registerBinding _ _ _ _ s) as [[s1 id]|] eqn:E; [| discriminate].
    cbn. intros [= <- <-]. by constructor.
  - destruct (requestBindingDecryption _ _ s) as [[s1 id]|] eqn:E; [| discriminate].
    cbn. intros [= <- <-]. by constructor.
  - destruct (handleDecryption _ _ _ s) as [s1|] eqn:E; [| discriminate].
    intros [= <- <-]. by constructor.
  - destruct (submitExternalEncryptedCount _ _ s) as [[s1 id]|] eqn:E; [| discriminate].
    cbn. intros [= <- <-]. by constructor.
  - destruct (requestCountDecryption _ _ s) as [[s1 id]|] eqn:E; [| discriminate].
    cbn. intros [= <- <-]. by constructor.
  - destruct (handleCountDecryption _ _ _ s) as [s1|] eqn:E; [| discriminate].
    intros [= <- <-]. by constructor.
  - intros [= <- <-]. by constructor.
Qed.

(** A transaction either reverts, leaving the state alone, or commits. *)
Lemma transact_cases s env c :
  (transact s (env, c) = s /\ exists f, call env c s = Revert f)
  \/ exists v, call env c s = Ok (transact s (env, c), v)
               /\ Committed env s (transact s (env, c)) c v.
Proof.
  unfold transact, commit. cbn [fst snd].
  destruct (call env c s) as [[s' v]|f] eqn:E.
  - right. exists v. split; [reflexivity |]. by apply call_inv.
  - left. eauto.
Qed.

Lemma run_app txs1 txs2 s : run (txs1 ++ txs2) s = run txs2 (run txs1 s).
Proof. unfold run. apply fold_left_app. Qed.

Lemma reachable_run txs : reachable (run txs initial).
Proof.
  induction txs as [| tx txs IH] using rev_ind.
  - constructor.
  - rewrite run_app. cbn. by constructor.
Qed.

End Transactions.

(** Splits a committed transaction into its seven shapes, with the new
    state spelled out. *)
Ltac committed_cases H :=
  destruct H as
    [ ? ? ? ? H | ? ? H | ? ? H | ? ? H | ? ? ? H | ? ? ? H | H ];
  [ apply registerBinding_inv in H as (? & ? & ?)
  | apply submitExternalEncryptedCount_inv in H as (? & ? & ?)
  | apply requestBindingDecryption_inv in H as (? & ? & ? & ? & ?)
  | apply requestCountDecryption_inv in H as (? & ? & ? & ? & ?)
  | apply handleDecryption_inv in H as (? & ? & ? & ?)
  | apply handleCountDecryption_inv in H as (? & ? & ? & ? & ?)
  | ]; subst.

Lemma completedOnce_reachable : reachable (fhe := CountingOracle) completedOnce.
Proof.
  unfold completedOnce. apply reachable_transact.
  exact (reachable_run (fhe := CountingOracle) pendingHistory).
Qed.

(** ** Completion callbacks *)

Section CoordinatorProperties.

Context {fhe : FHE}.

Lemma completion_commits env requestId c s s' v :
  completionOf requestId c ->
  call env c s = Ok (s', v) ->
  correlated requestId s <> 0 /\
  isTaskCompleted (correlated requestId s) s = false /\
  s' = completedState (correlated requestId s) s.
Proof.
  destruct c; cbn [completionOf]; try contradiction; intros -> H;
    cbn [call] in H; unfold_bind.
  - destruct (handleDecryption _ _ _ s) as [s1|] eqn:E; [| discriminate].
    injection H as <- _. apply handleDecryption_inv in E. tauto.
  - destruct (handleCountDecryption _ _ _ s) as [s1|] eqn:E; [| discriminate].
    injection H as <- _. apply handleCountDecryption_inv in E. tauto.
Qed.

Lemma completion_of_completed env requestId c s :
  completionOf requestId c ->
  correlated requestId s <> 0 ->
  isTaskCompleted (correlated requestId s) s = true ->
  call env c s = Revert (Require "Already completed").
Proof.
  intros Hc Hne Hdone. apply Z.eqb_neq in Hne.
  destruct c; cbn [completionOf] in Hc; try contradiction; subst; cbn [call].
  - rewrite handleDecryption_cases. cbv zeta. by rewrite Hne, Hdone.
  - rewrite handleCountDecryption_cases. cbv zeta. by rewrite Hne, Hdone.
Qed.

(** Two callbacks in a row.  When a completion callback for request [r]
    has succeeded, a callback for the same [r] delivered right after it
    (through either handler, with any cleartexts and proof) is rejected
    with "Already completed"; the rejected call leaves the whole state as
    it was, and across the two calls the log gains exactly one event, the
    [DecryptionCompleted] of the task. *)
Theorem second_completion_rejected env1 env2 r first second s s' v :
  completionOf r first ->
  completionOf r second ->
  call env1 first s = Ok (s', v) ->
  call env2 second s' = Revert (Require "Already completed")
  /\ transact s' (env2, second) = s'
  /\ events (run [(env1, first); (env2, second)] s)
     = events s
         ++ [DecryptionCompleted (correlated r s)
               (DecryptTask.bindingId
                  (mapping_get DecryptTask.zero (tasks s) (correlated r s)))].
Proof.
  intros H1 H2 Hok.
  destruct (completion_commits _ _ _ _ _ _ H1 Hok) as (Hne & Hpending & ->).
  assert (Hrej : call env2 second (completedState (correlated r s) s)
                 = Revert (Require "Already completed")).
  { apply (completion_of_completed _ r); [assumption | |].
    - by rewrite correlated_completedState.
    - rewrite correlated_completedState. apply isTaskCompleted_completedState. }
  split; [exact Hrej |].
  assert (Hsame : transact (completedState (correlated r s) s) (env2, second)
                  = completedState (correlated r s) s).
  { unfold transact, commit. cbn [fst snd]. by rewrite Hrej. }
  split; [exact Hsame |].
  unfold run. cbn [fold_left].
  replace (transact s (env1, first)) with (completedState (correlated r s) s).
  - rewrite Hsame. reflexivity.
  - unfold transact, commit. cbn [fst snd]. by rewrite Hok.
Qed.

(** C3. For a pending task correlated with request [r], a callback whose
    proof fails verification reverts with the library's error, through
    either handler: the state is the one from before the call (the task
    is still pending and no [DecryptionCompleted] was logged); a following
    callback for the same [r] whose proof verifies commits and completes
    the task. *)
Theorem invalid_proof_then_retry env r cleartexts proof cleartexts' proof' s :
  correlated r s <> 0 ->
  isTaskCompleted (correlated r s) s = false ->
  checkSignatures (oracleRequests s) r cleartexts proof = false ->
  checkSignatures (oracleRequests s) r cleartexts' proof' = true ->
  forall forged,
    forged = HandleDecryption r cleartexts proof
    \/ forged = HandleCountDecryption r cleartexts proof ->
    let s1 := transact s (env, forged) in
    call env forged s = Revert InvalidProof
    /\ s1 = s
    /\ isTaskCompleted (correlated r s) s1 = false
    /\ events s1 = events s
    /\ exists s2,
         handleDecryption r cleartexts' proof' s1 = Ok s2
         /\ isTaskCompleted (correlated r s) s2 = true
         /\ events s2
            = events s
                ++ [DecryptionCompleted (correlated r s)
                      (DecryptTask.bindingId
                         (mapping_get DecryptTask.zero (tasks s) (correlated r s)))].
Proof.
  intros Hne Hpending Hbad Hgood forged Hforged s1.
  apply Z.eqb_neq in Hne.
  assert (Hrev : call env forged s = Revert InvalidProof).
  { destruct Hforged as [-> | ->]; cbn [call]; unfold_bind.
    - rewrite handleDecryption_cases. cbv zeta. by rewrite Hne, Hpending, Hbad.
    - rewrite handleCountDecryption_cases. cbv zeta.
      by rewrite Hne, Hpending, Hbad. }
  assert (Hs1 : s1 = s).
  { subst s1. unfold transact, commit. cbn [fst snd]. by rewrite Hrev. }
  rewrite Hs1. repeat split; try assumption.
  exists (completedState (correlated r s) s). repeat split.
  - rewrite handleDecryption_cases. cbv zeta. by rewrite Hne, Hpending, Hgood.
  - apply isTaskCompleted_completedState.
Qed.

End CoordinatorProperties.

(** The callback for request 0, delivered twice in a row to the pending
    state. *)
Lemma second_completion_rejected_witness :
  call (fhe := CountingOracle) bob_block2 goodCallback completedOnce
  = Revert (Require "Already completed").
Proof.
  refine (proj1 (second_completion_rejected (fhe := CountingOracle)
                   bob_block2 bob_block2 0 goodCallback goodCallback
                   pendingState completedOnce None _ _ _)).
  - reflexivity.
  - reflexivity.
  - vm_compute. reflexivity.
Defined.

(** A forged callback for request 0 on the pending state. *)
Lemma invalid_proof_then_retry_witness :
  transact (fhe := CountingOracle) pendingState (bob_block2, forgedCallback)
  = pendingState.
Proof.
  refine (proj1 (proj2 (invalid_proof_then_retry (fhe := CountingOracle)
                          bob_block2 0 seven [] seven (expectedProof 0 seven)
                          pendingState _ _ _ _ forgedCallback _))).
  - vm_compute. discriminate.
  - vm_compute. reflexivity.
  - vm_compute. reflexivity.
  - vm_compute. reflexivity.
  - left. reflexivity.
Defined.

(** ** Requests for unknown bindings *)

Section RequestProperties.

Context {fhe : FHE}.

(** C7. Asking for the decryption of a binding id under which no binding
    is stored reverts, with reason "Invalid binding" on the binding path
    and "Not found" on the count path; the transaction leaves the state
    as it was, so no task is created, no correlation entry is recorded,
    no oracle request goes out and no event is logged. *)
Theorem request_unknown_binding env bindingId s :
  bindings s !! bindingId = None ->
  requestBindingDecryption env bindingId s = Revert (Require "Invalid binding")
  /\ requestCountDecryption env bindingId s = Revert (Require "Not found")
  /\ (forall c,
        c = RequestBindingDecryption bindingId \/ c = RequestCountDecryption bindingId ->
        let s' := transact s (env, c) in
        s' = s
        /\ tasks s' = tasks s
        /\ requestToTaskId s' = requestToTaskId s
        /\ oracleRequests s' = oracleRequests s
        /\ events s' = events s).
Proof.
  intros Hnone.
  assert (H1 : requestBindingDecryption env bindingId s
               = Revert (Require "Invalid binding")).
  { unfold requestBindingDecryption. rewrite (mapping_get_None _ _ _ Hnone).
    reflexivity. }
  assert (H2 : requestCountDecryption env bindingId s
               = Revert (Require "Not found")).
  { unfold requestCountDecryption. rewrite (mapping_get_None _ _ _ Hnone).
    reflexivity. }
  split; [exact H1 |]. split; [exact H2 |].
  intros c Hc s'.
  assert (Hs : s' = s).
  { subst s'. unfold transact, commit. cbn [fst snd].
    destruct Hc as [-> | ->]; cbn [call]; unfold_bind.
    - by rewrite H1.
    - by rewrite H2. }
  rewrite Hs. auto.
Qed.

End RequestProperties.

(** On reachable states the ids with no stored binding are exactly those
    [registerBinding] and [submitExternalEncryptedCount] never returned. *)
Lemma bindingsNumbered_store s rec ah ev :
  BindingRecord.id rec = bindingCount s + 1 ->
  bindingsNumbered s ->
  bindingsNumbered
    (mkState (bindingCount s + 1) (<[bindingCount s + 1 := rec]> (bindings s))
       (tasks s) ah (requestToTaskId s) ev (oracleRequests s)).
Proof.
  intros Hid [Hc Hb]. split; cbn [bindingCount bindings]; [lia |].
  intros b. destruct (decide (bindingCount s + 1 = b)) as [<- | Hne].
  - rewrite lookup_insert_eq. split; [lia | exact Hid].
  - rewrite lookup_insert_ne by assumption.
    specialize (Hb b). destruct (bindings s !! b); [| lia].
    split; [lia | tauto].
Qed.

Lemma reachable_bindingsNumbered {fhe : FHE} s : reachable s -> bindingsNumbered s.
Proof.
  induction 1 as [| s [env c] _ IH].
  - split; [reflexivity |]. intros b. cbn. rewrite lookup_empty. lia.
  - destruct (transact_cases s env c) as [[-> _] | (v & _ & Hc)]; [exact IH |].
    set (s' := transact s (env, c)) in *. clearbody s'.
    committed_cases Hc; try exact IH.
    + by apply bindingsNumbered_store.
    + by apply bindingsNumbered_store.
Qed.

(** Binding 5 does not exist in the pending state. *)
Lemma request_unknown_binding_witness :
  requestBindingDecryption (fhe := CountingOracle) alice_block1 5 pendingState
  = Revert (Require "Invalid binding").
Proof.
  refine (proj1 (request_unknown_binding (fhe := CountingOracle)
                   alice_block1 5 pendingState _)).
  vm_compute. reflexivity.
Defined.

(** ** Decoding in the callbacks *)

(** C6 does not hold on the count path: an authentic callback whose
    cleartexts are not a [uint32] word reverts, and the task is still
    pending afterwards. *)
Lemma undecodable_count_callback_reverts :
  let s := countPendingState in
  checkSignatures (FHE := CountingOracle) (oracleRequests s) 0 [] (expectedProof 0 []) = true
  /\ Abi.decode_uint32 [] = None
  /\ call (fhe := CountingOracle) bob_block2 undecodableCallback s = Revert DecodeFailed
  /\ correlated 0 s <> 0
  /\ isTaskCompleted (correlated 0 s)
       (transact (fhe := CountingOracle) s (bob_block2, undecodableCallback)) = false.
Proof.
  vm_compute. repeat split; discriminate.
Qed.

Section DecodingProperties.

Context {fhe : FHE}.

(** C6, amended. For a pending task correlated with [r] and a callback
    whose proof verifies: [handleDecryption] decodes nothing and always
    completes the task; [handleCountDecryption] completes the task when
    the cleartexts decode as a [uint32], and reverts when they do not,
    leaving the state (and so the pending task) as it was. *)
Theorem verified_completion_and_decoding env r cleartexts proof s :
  correlated r s <> 0 ->
  isTaskCompleted (correlated r s) s = false ->
  checkSignatures (oracleRequests s) r cleartexts proof = true ->
  (exists s', handleDecryption r cleartexts proof s = Ok s'
              /\ isTaskCompleted (correlated r s) s' = true)
  /\ (Abi.decode_uint32 cleartexts = None ->
      handleCountDecryption r cleartexts proof s = Revert DecodeFailed
      /\ transact s (env, HandleCountDecryption r cleartexts proof) = s)
  /\ (is_Some (Abi.decode_uint32 cleartexts) ->
      exists s', handleCountDecryption r cleartexts proof s = Ok s'
                 /\ isTaskCompleted (correlated r s) s' = true).
Proof.
  intros Hne Hpending Hproof. apply Z.eqb_neq in Hne.
  split; [| split].
  - exists (completedState (correlated r s) s). split.
    + rewrite handleDecryption_cases. cbv zeta. by rewrite Hne, Hpending, Hproof.
    + apply isTaskCompleted_completedState.
  - intros Hdec.
    assert (Hrev : handleCountDecryption r cleartexts proof s = Revert DecodeFailed).
    { rewrite handleCountDecryption_cases. cbv zeta.
      by rewrite Hne, Hpending, Hproof, Hdec. }
    split; [exact Hrev |].
    unfold transact, commit. cbn [fst snd call]. unfold_bind. by rewrite Hrev.
  - intros [w Hdec].
    exists (completedState (correlated r s) s). split.
    + rewrite handleCountDecryption_cases. cbv zeta.
      by rewrite Hne, Hpending, Hproof, Hdec.
    + apply isTaskCompleted_completedState.
Qed.

End DecodingProperties.

(** The authentic, undecodable callback on the pending count task. *)
Lemma verified_completion_and_decoding_witness :
  handleCountDecryption (fhe := CountingOracle) 0 [] (expectedProof 0 []) countPendingState
  = Revert DecodeFailed.
Proof.
  refine (proj1 (proj1 (proj2 (verified_completion_and_decoding
                                 (fhe := CountingOracle) bob_block2 0 []
                                 (expectedProof 0 []) countPendingState _ _ _)) _)).
  - vm_compute. discriminate.
  - vm_compute. reflexivity.
  - vm_compute. reflexivity.
  - reflexivity.
Defined.

(** ** The completion flag over time *)

Section FlagProperties.

Context {fhe : FHE}.

Lemma completed_after_insert tid t rec bc bs ts ah rq ev oq :
  isTaskCompleted tid (mkState bc bs (<[t := rec]> ts) ah rq ev oq)
  = if decide (t = tid) then DecryptTask.completed rec
    else DecryptTask.completed (mapping_get DecryptTask.zero ts tid).
Proof.
  unfold isTaskCompleted. cbn [tasks]. destruct (decide (t = tid)) as [-> | Hne].
  - by rewrite mapping_get_insert_eq.
  - by rewrite mapping_get_insert_ne.
Qed.

(** The flag of [tid] across a committed completion of request [r]. *)
Ltac flag_of_completion s tid :=
  match goal with
  | Hsig : checkSignatures _ ?r _ _ = true |- _ =>
      destruct (decide (correlated r s = tid)) as [<- | ?];
      [ rewrite isTaskCompleted_completedState; split; [| congruence];
        intros _ _; do 3 eexists; eauto
      | rewrite isTaskCompleted_completedState_ne by assumption;
        split; congruence ]
  end.

(** C5, amended. Over one transaction, the completion flag of a task goes
    from false to true only through a completion callback that committed,
    so its proof verified and its request id was correlated with that
    task; it goes from true to false only through a decryption request
    that committed and returned this very task id, which stores a new
    pending task under it.  Every other transaction leaves the flag as it
    was. *)
Theorem completion_flag_transitions env c s tid :
  let s' := transact s (env, c) in
  (isTaskCompleted tid s = false -> isTaskCompleted tid s' = true ->
   exists r cleartexts proof,
     (c = HandleDecryption r cleartexts proof
      \/ c = HandleCountDecryption r cleartexts proof)
     /\ correlated r s = tid
     /\ checkSignatures (oracleRequests s) r cleartexts proof = true)
  /\ (isTaskCompleted tid s = true -> isTaskCompleted tid s' = false ->
      isRequest c /\ call env c s = Ok (s', Some tid)).
Proof.
  intros s'. subst s'.
  destruct (transact_cases s env c) as [[-> _] | (v & Hcall & Hc)].
  { split; congruence. }
  set (s' := transact s (env, c)) in *. clearbody s'.
  committed_cases Hc.
  - (* registerBinding *) split; unfold isTaskCompleted; cbn [tasks]; congruence.
  - (* submitExternalEncryptedCount *)
    split; unfold isTaskCompleted; cbn [tasks]; congruence.
  - (* requestBindingDecryption *)
    rewrite completed_after_insert. cbn [DecryptTask.completed].
    fold (isTaskCompleted tid s).
    destruct (decide (_ = tid)) as [<- | Hne]; split; try congruence.
    intros _ _. split; [exact I | exact Hcall].
  - (* requestCountDecryption *)
    rewrite completed_after_insert. cbn [DecryptTask.completed].
    fold (isTaskCompleted tid s).
    destruct (decide (_ = tid)) as [<- | Hne]; split; try congruence.
    intros _ _. split; [exact I | exact Hcall].
  - (* handleDecryption *)
    flag_of_completion s tid.
  - (* handleCountDecryption *)
    flag_of_completion s tid.
  - (* receive *) split; congruence.
Qed.

End FlagProperties.

(** C5 does not hold as stated: in one block, Alice requests a decryption,
    the callback completes the task, and Alice requests the same binding
    again; the second request hashes the same inputs, lands on the same
    task id and stores a pending task over the completed one. *)
Lemma completion_flag_reset :
  let tid := correlated 0 pendingState in
  reachable (fhe := CountingOracle) completedOnce
  /\ isTaskCompleted tid completedOnce = true
  /\ isTaskCompleted tid
       (transact (fhe := CountingOracle) completedOnce
          (alice_block2, RequestBindingDecryption 1)) = false.
Proof.
  split; [| vm_compute; split; reflexivity].
  apply completedOnce_reachable.
Qed.

(** The second request of the counterexample is the transaction that
    resets the flag. *)
Lemma completion_flag_transitions_witness :
  isRequest (RequestBindingDecryption 1)
  /\ exists s',
       call (fhe := CountingOracle) alice_block2 (RequestBindingDecryption 1) completedOnce
       = Ok (s', Some (correlated 0 pendingState)).
Proof.
  destruct (completion_flag_transitions (fhe := CountingOracle) alice_block2
              (RequestBindingDecryption 1) completedOnce
              (correlated 0 pendingState)) as [_ H].
  destruct H as [Hreq Hcall].
  - vm_compute. reflexivity.
  - vm_compute. reflexivity.
  - split; [exact Hreq | eexists; exact Hcall].
Defined.

(** ** Task ids *)

Section TaskIds.

Context {fhe : FHE}.

Lemma request_commits env c s s' t :
  isRequest c ->
  call env c s = Ok (s', Some t) ->
  t = requestTaskId env c
  /\ tasks s' = <[t := openedTask env c t]> (tasks s).
Proof.
  intros Hreq Hcall. apply call_inv in Hcall.
  destruct c; cbn [isRequest] in Hreq; try contradiction; inversion Hcall; subst.
  - match goal with H : requestBindingDecryption _ _ _ = _ |- _ =>
      apply requestBindingDecryption_inv in H as (_ & -> & reqId & _ & ->) end.
    split; reflexivity.
  - match goal with H : requestCountDecryption _ _ _ = _ |- _ =>
      apply requestCountDecryption_inv in H as (_ & -> & reqId & _ & ->) end.
    split; reflexivity.
Qed.

Lemma sameHashedInputs_requestTaskId env1 c1 env2 c2 :
  sameHashedInputs env1 c1 env2 c2 -> requestTaskId env1 c1 = requestTaskId env2 c2.
Proof.
  destruct c1, c2; cbn [sameHashedInputs requestTaskId]; try contradiction.
  - intros (-> & -> & ->). reflexivity.
  - intros (-> & ->). reflexivity.
Qed.

(** C4, amended. The task id of a request is the hash of the binding id,
    the block timestamp and (on the binding path) the requester, and of
    nothing else.  Of two requests that committed: when they agree on
    these inputs they return the same task id, and the later request
    stores its own pending task under it, whatever the earlier one left
    there; when their task ids differ, the later request leaves the
    earlier request's task as it finds it. *)
Theorem task_id_from_hashed_inputs env1 c1 s1 s1' t1 env2 c2 s2 s2' t2 :
  isRequest c1 -> isRequest c2 ->
  call env1 c1 s1 = Ok (s1', Some t1) ->
  call env2 c2 s2 = Ok (s2', Some t2) ->
  t1 = requestTaskId env1 c1
  /\ t2 = requestTaskId env2 c2
  /\ (sameHashedInputs env1 c1 env2 c2 ->
      t1 = t2 /\ tasks s2' !! t1 = Some (openedTask env2 c2 t2))
  /\ (t1 <> t2 -> tasks s2' !! t1 = tasks s2 !! t1).
Proof.
  intros Hr1 Hr2 H1 H2.
  destruct (request_commits _ _ _ _ _ Hr1 H1) as [E1 _].
  destruct (request_commits _ _ _ _ _ Hr2 H2) as [E2 Ht].
  split; [exact E1 |]. split; [exact E2 |]. split.
  - intros Hsame. apply sameHashedInputs_requestTaskId in Hsame.
    assert (t1 = t2) as -> by congruence.
    split; [reflexivity |]. rewrite Ht. apply lookup_insert_eq.
  - intros Hne. rewrite Ht. apply lookup_insert_ne. congruence.
Qed.

End TaskIds.

(** C4 does not hold as stated.  On the count path Alice and Bob ask for
    the same binding in the same block: both get the same task id, and
    Bob's task replaces Alice's.  On the binding path Alice asks twice in
    one block and gets the same task id twice.  The oracle saw distinct
    requests (ids 0 and 1) each time. *)
Lemma task_id_collision :
  (exists s1 s2 t,
     requestCountDecryption (fhe := CountingOracle) alice_block2 1 countSubmitted
     = Ok (s1, t)
     /\ requestCountDecryption (fhe := CountingOracle) bob_block2 1 s1 = Ok (s2, t)
     /\ DecryptTask.requester (mapping_get DecryptTask.zero (tasks s1) t) = alice
     /\ DecryptTask.requester (mapping_get DecryptTask.zero (tasks s2) t) = bob
     /\ map assignedId (oracleRequests s2) = [0; 1])
  /\ (exists s1 s2 t,
        requestBindingDecryption (fhe := CountingOracle) alice_block2 1 registered
        = Ok (s1, t)
        /\ requestBindingDecryption (fhe := CountingOracle) alice_block2 1 s1
           = Ok (s2, t)
        /\ map assignedId (oracleRequests s2) = [0; 1]).
Proof.
  split.
  - eexists _, _, _. split; [vm_compute; reflexivity |].
    vm_compute. repeat split; reflexivity.
  - eexists _, _, _. split; [vm_compute; reflexivity |].
    vm_compute. repeat split; reflexivity.
Qed.

(** Alice's and Bob's requests of the counterexample meet the hypotheses:
    Bob's task is what is stored under the shared id. *)
Lemma task_id_from_hashed_inputs_witness :
  let c := RequestCountDecryption 1 in
  let t := requestTaskId alice_block2 c in
  tasks (transact (fhe := CountingOracle) countRequestedByAlice (bob_block2, c)) !! t
  = Some (openedTask bob_block2 c t).
Proof.
  intros c t.
  refine (proj2 (proj1 (proj2 (proj2
    (task_id_from_hashed_inputs (fhe := CountingOracle)
       alice_block2 c countSubmitted countRequestedByAlice t
       bob_block2 c countRequestedByAlice
       (transact (fhe := CountingOracle) countRequestedByAlice (bob_block2, c)) t
       I I _ _))) _)).
  - vm_compute. reflexivity.
  - vm_compute. reflexivity.
  - split; reflexivity.
Defined.

(** ** Correlation entries *)

Section Correlation.

Context {fhe : FHE}.

Lemma correlated_insert r reqId tid bc bs ts ah rq ev oq :
  correlated r (mkState bc bs ts ah (<[reqId := tid]> rq) ev oq)
  = if decide (reqId = r) then tid else mapping_get 0 rq r.
Proof.
  unfold correlated. cbn [requestToTaskId].
  destruct (decide (reqId = r)) as [-> | Hne].
  - by rewrite mapping_get_insert_eq.
  - by rewrite mapping_get_insert_ne.
Qed.

Lemma entriesLeadToTasks_open s reqId tid task ev oq :
  DecryptTask.id task = tid ->
  entriesLeadToTasks s ->
  entriesLeadToTasks
    (mkState (bindingCount s) (bindings s) (<[tid := task]> (tasks s))
       (abiHashToBinding s) (<[reqId := tid]> (requestToTaskId s)) ev oq).
Proof.
  intros Hid IH r. rewrite correlated_insert. cbn [tasks].
  destruct (decide (reqId = r)) as [-> | Hne].
  - intros _. exists task. by rewrite lookup_insert_eq.
  - intros Hr. fold (correlated r s) in *.
    destruct (decide (tid = correlated r s)) as [E | E].
    + rewrite <- E. exists task. by rewrite lookup_insert_eq.
    + rewrite lookup_insert_ne by assumption. by apply IH.
Qed.

Lemma entriesLeadToTasks_completed s tid :
  entriesLeadToTasks s -> entriesLeadToTasks (completedState tid s).
Proof.
  intros IH r. rewrite correlated_completedState. intros Hr.
  destruct (IH r Hr) as (t & Ht & Hid).
  unfold completedState. cbn [tasks].
  destruct (decide (tid = correlated r s)) as [E | E].
  - subst tid. rewrite lookup_insert_eq. eexists. split; [reflexivity |].
    unfold mapping_get. rewrite Ht. cbn. exact Hid.
  - rewrite lookup_insert_ne by assumption. eauto.
Qed.

Lemma reachable_entriesLeadToTasks s : reachable s -> entriesLeadToTasks s.
Proof.
  induction 1 as [| s [env c] _ IH].
  - intros r Hr. exfalso. apply Hr. reflexivity.
  - destruct (transact_cases s env c) as [[-> _] | (v & _ & Hc)]; [exact IH |].
    set (s' := transact s (env, c)) in *. clearbody s'.
    committed_cases Hc.
    + exact IH.
    + exact IH.
    + by apply entriesLeadToTasks_open.
    + by apply entriesLeadToTasks_open.
    + by apply entriesLeadToTasks_completed.
    + by apply entriesLeadToTasks_completed.
    + exact IH.
Qed.

(** C2, amended. Correlation entries are never consumed.  At every
    reachable state each entry leads to a stored task with that id,
    pending or completed.  A completion callback that commits leaves the
    whole correlation map as it was and sets the task's flag in the same
    transaction; in the state it commits the flag is what stops a replay:
    every callback for that request id is rejected with "Already
    completed". *)
Theorem correlation_entries_persist s :
  reachable s ->
  entriesLeadToTasks s
  /\ forall env r c s' v,
       completionOf r c ->
       call env c s = Ok (s', v) ->
       requestToTaskId s' = requestToTaskId s
       /\ correlated r s' <> 0
       /\ isTaskCompleted (correlated r s') s' = true
       /\ forall env' c', completionOf r c' ->
            call env' c' s' = Revert (Require "Already completed").
Proof.
  intros Hreach. split; [by apply reachable_entriesLeadToTasks |].
  intros env r c s' v Hc Hcall.
  destruct (completion_commits _ _ _ _ _ _ Hc Hcall) as (Hne & _ & ->).
  rewrite correlated_completedState.
  split; [reflexivity |]. split; [exact Hne |].
  split; [apply isTaskCompleted_completedState |].
  intros env' c' Hc'. apply (completion_of_completed _ r); [assumption | |].
  - by rewrite correlated_completedState.
  - rewrite correlated_completedState. apply isTaskCompleted_completedState.
Qed.

End Correlation.

(** C2 does not hold as stated: after the callback for request 0 has
    completed its task, the entry for request 0 is still in the map and
    still leads to that task. *)
Lemma entry_outlives_completion :
  exists tid,
    reachable (fhe := CountingOracle) completedOnce
    /\ requestToTaskId completedOnce !! 0 = Some tid
    /\ tid <> 0
    /\ isTaskCompleted tid completedOnce = true.
Proof.
  eexists. split; [apply completedOnce_reachable |].
  split; [vm_compute; reflexivity |].
  split; [discriminate | vm_compute; reflexivity].
Qed.

(** The state of the counterexample is reachable. *)
Lemma correlation_entries_persist_witness :
  entriesLeadToTasks completedOnce.
Proof.
  refine (proj1 (correlation_entries_persist (fhe := CountingOracle) completedOnce _)).
  apply completedOnce_reachable.
Defined.

(** ** Lookup by content hash over histories *)

Section Histories.

Context {fhe : FHE}.

Lemma last_cons {A} (a d : A) l : List.last (a :: l) d = List.last l a.
Proof.
  revert a d. induction l as [| b l IH]; intros a d; [reflexivity |].
  change (List.last (a :: b :: l) d) with (List.last (b :: l) d).
  rewrite (IH b d), (IH b a). reflexivity.
Qed.

Lemma last_app_default {A} (l1 l2 : list A) d :
  List.last (l1 ++ l2) d = List.last l2 (List.last l1 d).
Proof.
  revert d. induction l1 as [| a l1 IH]; intros d; [reflexivity |].
  rewrite <- app_comm_cons, !last_cons. apply IH.
Qed.

(** One transaction moves the index entry of [h] exactly when it is a
    committed [registerBinding] under [h]. *)
Lemma lookup_transact h s tx :
  lookupBindingByAbi h (transact s tx)
  = List.last (registeredId h s tx) (lookupBindingByAbi h s).
Proof.
  destruct tx as [env c].
  destruct (transact_cases s env c) as [[-> [f Hf]] | (v & Hcall & Hc)].
  - unfold registeredId. cbn [fst snd].
    destruct c; try reflexivity.
    cbn [call] in Hf. unfold_bind.
    destruct (registerBinding _ _ _ _ s) as [[s1 id]|]; [discriminate | reflexivity].
  - unfold registeredId. cbn [fst snd].
    set (s' := transact s (env, c)) in *. clearbody s'.
    destruct Hc as [a m e id H | | | | | |];
      try (apply call_inv in Hcall; inversion Hcall; subst).
    + rewrite H. apply registerBinding_inv in H as (_ & _ & ->).
      unfold lookupBindingByAbi. cbn [abiHashToBinding].
      destruct (a =? h) eqn:E.
      * apply Z.eqb_eq in E as ->. by rewrite mapping_get_insert_eq.
      * apply Z.eqb_neq in E. by rewrite mapping_get_insert_ne.
    + match goal with H : submitExternalEncryptedCount _ _ _ = _ |- _ =>
        apply submitExternalEncryptedCount_inv in H as (_ & _ & ->) end.
      reflexivity.
    + match goal with H : requestBindingDecryption _ _ _ = _ |- _ =>
        apply requestBindingDecryption_inv in H as (_ & _ & ? & _ & ->) end.
      reflexivity.
    + match goal with H : requestCountDecryption _ _ _ = _ |- _ =>
        apply requestCountDecryption_inv in H as (_ & _ & ? & _ & ->) end.
      reflexivity.
    + match goal with H : handleDecryption _ _ _ _ = _ |- _ =>
        apply handleDecryption_inv in H as (_ & _ & _ & ->) end.
      reflexivity.
    + match goal with H : handleCountDecryption _ _ _ _ = _ |- _ =>
        apply handleCountDecryption_inv in H as (_ & _ & _ & _ & ->) end.
      reflexivity.
    + reflexivity.
Qed.

Lemma lookup_run h txs s :
  lookupBindingByAbi h (run txs s)
  = List.last (registeredWith h txs s) (lookupBindingByAbi h s).
Proof.
  revert s. induction txs as [| tx txs IH]; intros s; [reflexivity |].
  cbn [run fold_left registeredWith collect].
  fold (run txs (transact s tx)). rewrite last_app_default, <- lookup_transact.
  apply IH.
Qed.

Lemma bindingCount_transact s tx :
  0 <= bindingCount s -> 0 <= bindingCount (transact s tx).
Proof.
  intros Hs. destruct tx as [env c].
  destruct (transact_cases s env c) as [[-> _] | (v & _ & Hc)]; [exact Hs |].
  set (s' := transact s (env, c)) in *. clearbody s'.
  committed_cases Hc; cbn [bindingCount]; try assumption; lia.
Qed.

Lemma registeredWith_positive h txs s :
  0 <= bindingCount s -> Forall (fun id => 0 < id) (registeredWith h txs s).
Proof.
  revert s. induction txs as [| tx txs IH]; intros s Hs; [constructor |].
  cbn [registeredWith collect]. apply Forall_app. split.
  - unfold registeredId. destruct tx as [env c]. cbn [fst snd].
    destruct c; try constructor.
    destruct (registerBinding _ _ _ _ s) as [[s1 id]|] eqn:E; [| constructor].
    apply registerBinding_inv in E as (-> & _ & _).
    destruct (_ =? h); constructor; [lia | constructor].
  - apply IH. by apply bindingCount_transact.
Qed.

(** C9. After any history from the initial state, [lookupBindingByAbi h]
    is the id returned by the last committed [registerBinding] that
    supplied content hash [h], and the absent sentinel 0 when there was
    none; ids are positive, so 0 always means absent. *)
Theorem lookup_last_writer_wins h txs :
  let ids := registeredWith h txs initial in
  lookupBindingByAbi h (run txs initial) = List.last ids 0
  /\ (ids = [] -> lookupBindingByAbi h (run txs initial) = 0)
  /\ Forall (fun id => id <> 0) ids.
Proof.
  intros ids. subst ids.
  assert (H : lookupBindingByAbi h (run txs initial)
              = List.last (registeredWith h txs initial) 0)
    by apply lookup_run.
  split; [exact H |]. split.
  - intros E. rewrite H, E. reflexivity.
  - eapply Forall_impl; [apply registeredWith_positive; reflexivity |].
    cbn. intros id Hid. lia.
Qed.

End Histories.

Example lookup_on_mixedHistory :
  let s := run (fhe := CountingOracle) mixedHistory initial in
  registeredWith (fhe := CountingOracle) 11 mixedHistory initial = [1; 3]
  /\ lookupBindingByAbi 11 s = 3
  /\ lookupBindingByAbi 12 s = 4
  /\ lookupBindingByAbi 13 s = 0
  /\ lookupBindingByAbi 0 s = 0
  /\ bindingCount s = 4.
Proof. vm_compute. repeat split; reflexivity. Qed.

(** ** Tasks that were never opened *)

Section UnknownTasks.

Context {fhe : FHE}.

Lemma tracked_weaken opened more s :
  tracked opened s -> tracked (opened ++ more) s.
Proof.
  intros [Ht Hr]. split; intros; apply elem_of_app; left; auto.
Qed.

Lemma tracked_open opened s reqId tid task ev oq :
  tracked opened s ->
  tracked (opened ++ [tid])
    (mkState (bindingCount s) (bindings s) (<[tid := task]> (tasks s))
       (abiHashToBinding s) (<[reqId := tid]> (requestToTaskId s)) ev oq).
Proof.
  intros [Ht Hr]. split.
  - intros t. cbn [tasks]. rewrite elem_of_app, list_elem_of_singleton.
    destruct (decide (tid = t)) as [-> | Hne]; [auto |].
    rewrite lookup_insert_ne by assumption. auto.
  - intros r. rewrite correlated_insert, elem_of_app, list_elem_of_singleton.
    destruct (decide (reqId = r)); [auto |].
    intros H. left. by apply Hr.
Qed.

Lemma tracked_completed opened s r :
  correlated r s <> 0 ->
  tracked opened s -> tracked opened (completedState (correlated r s) s).
Proof.
  intros Hne [Ht Hr]. split.
  - intros t. unfold completedState. cbn [tasks].
    destruct (decide (correlated r s = t)) as [<- | Hd]; [auto |].
    rewrite lookup_insert_ne by assumption. auto.
  - intros r'. rewrite correlated_completedState. auto.
Qed.

Lemma tracked_transact opened s tx :
  tracked opened s -> tracked (opened ++ openedId s tx) (transact s tx).
Proof.
  intros Hs. destruct tx as [env c].
  destruct (transact_cases s env c) as [[-> _] | (v & _ & Hc)];
    [by apply tracked_weaken |].
  unfold openedId. cbn [fst snd].
  set (s' := transact s (env, c)) in *. clearbody s'.
  destruct Hc as [? ? ? ? H | ? ? H | ? ? H | ? ? H | ? ? ? H | ? ? ? H | H].
  - apply registerBinding_inv in H as (_ & _ & ->).
    apply tracked_weaken. exact Hs.
  - apply submitExternalEncryptedCount_inv in H as (_ & _ & ->).
    apply tracked_weaken. exact Hs.
  - rewrite H. apply requestBindingDecryption_inv in H as (_ & _ & ? & _ & ->).
    by apply tracked_open.
  - rewrite H. apply requestCountDecryption_inv in H as (_ & _ & ? & _ & ->).
    by apply tracked_open.
  - apply handleDecryption_inv in H as (? & _ & _ & ->).
    apply tracked_weaken. by apply tracked_completed.
  - apply handleCountDecryption_inv in H as (? & _ & _ & _ & ->).
    apply tracked_weaken. by apply tracked_completed.
  - subst. by apply tracked_weaken.
Qed.

Lemma tracked_run txs opened s :
  tracked opened s -> tracked (opened ++ openedTasks txs s) (run txs s).
Proof.
  revert opened s. induction txs as [| tx txs IH]; intros opened s Hs.
  - cbn. by rewrite app_nil_r.
  - cbn [run fold_left openedTasks collect]. fold (run txs (transact s tx)).
    rewrite app_assoc. apply IH. by apply tracked_transact.
Qed.

Lemma tracked_initial : tracked [] initial.
Proof.
  split.
  - intros t [x Hx]. cbn in Hx. by rewrite lookup_empty in Hx.
  - intros r Hr. exfalso. apply Hr. reflexivity.
Qed.

(** C10. [isTaskCompleted] is a total function of the task id and the
    state.  After any history from the initial state it returns [false]
    for every task id that no committed decryption request of the history
    returned; it also returns [false] for a task right after the request
    that opened it, so the caller cannot tell the two apart. *)
Theorem isTaskCompleted_unknown_task txs :
  (forall tid, tid ∉ openedTasks txs initial ->
               isTaskCompleted tid (run txs initial) = false)
  /\ (forall env c s' tid,
        isRequest c ->
        call env c (run txs initial) = Ok (s', Some tid) ->
        isTaskCompleted tid s' = false).
Proof.
  split.
  - intros tid Hnot.
    destruct (tracked_run txs [] initial tracked_initial) as [Ht _].
    unfold isTaskCompleted.
    destruct (tasks (run txs initial) !! tid) as [t|] eqn:E.
    + exfalso. apply Hnot. apply (Ht tid). eauto.
    + by rewrite (mapping_get_None _ _ _ E).
  - intros env c s' tid Hreq Hcall.
    destruct (request_commits _ _ _ _ _ Hreq Hcall) as [_ Ht].
    unfold isTaskCompleted. rewrite Ht. by rewrite mapping_get_insert_eq.
Qed.

End UnknownTasks.

(** Task id 42 was never returned in the pending history. *)
Lemma isTaskCompleted_unknown_task_witness :
  isTaskCompleted 42 pendingState = false.
Proof.
  refine (proj1 (isTaskCompleted_unknown_task (fhe := CountingOracle) pendingHistory)
            42 _).
  vm_compute. intros H.
  apply list_elem_of_singleton in H. discriminate H.
Defined.

(** * Further properties of the contract *)

(** ** The binding store *)

Lemma mapping_get_Some {V} (zero : V) (m : gmap Z V) k v :
  m !! k = Some v -> mapping_get zero m k = v.
Proof. intros E. unfold mapping_get. by rewrite E. Qed.

Section BindingStore.

Context {fhe : FHE}.

(** X1. A committed [submitExternalEncryptedCount] stores the count under
    the next id with the caller as uploader and zero hashes, logs
    [BindingRegistered], and leaves the content-hash index alone: no
    lookup changes, so the new binding cannot be found by content. *)
Theorem submit_then_get env count s s' id :
  submitExternalEncryptedCount env count s = Ok (s', id) ->
  getBinding id s' = (msg_sender env, 0, 0, count, block_timestamp env)
  /\ bindingCount s' = bindingCount s + 1
  /\ id = bindingCount s'
  /\ (forall h, lookupBindingByAbi h s' = lookupBindingByAbi h s)
  /\ events s' = events s ++ [BindingRegistered id (msg_sender env)].
Proof.
  intros H. apply submitExternalEncryptedCount_inv in H as (Hid & _ & ->).
  unfold getBinding. cbn [bindings bindingCount events].
  rewrite mapping_get_insert_eq. cbn. auto.
Qed.

Lemma bindingCount_bounded s : reachable s -> bindingCount s <= uint256_max.
Proof.
  induction 1 as [| s [env c] _ IH]; [by vm_compute |].
  destruct (transact_cases s env c) as [[-> _] | (v & _ & Hc)]; [exact IH |].
  set (s' := transact s (env, c)) in *. clearbody s'.
  committed_cases Hc; cbn [bindingCount]; assumption.
Qed.

(** X3. At every reachable state the counter is a [uint256] and bindings
    are stored under exactly the ids 1 .. [bindingCount], each record
    carrying the id it is stored under; id 0 is never used. *)
Theorem bindings_numbered s :
  reachable s ->
  0 <= bindingCount s <= uint256_max
  /\ forall b,
       (is_Some (bindings s !! b) <-> 1 <= b <= bindingCount s)
       /\ (forall rec, bindings s !! b = Some rec -> BindingRecord.id rec = b).
Proof.
  intros Hr. destruct (reachable_bindingsNumbered s Hr) as [Hc Hb].
  split; [split; [exact Hc | by apply bindingCount_bounded] |].
  intros b. specialize (Hb b). destruct (bindings s !! b) as [rec|].
  - split; [split; [tauto | eauto] |]. intros rec' [= <-]. tauto.
  - split; [| discriminate]. split; [intros [x Hx]; discriminate | lia].
Qed.


Lemma bindings_kept s tx b rec :
  bindingsNumbered s ->
  bindings s !! b = Some rec -> bindings (transact s tx) !! b = Some rec.
Proof.
  intros [_ Hn] Hb. destruct tx as [env c].
  destruct (transact_cases s env c) as [[-> _] | (v & _ & Hc)]; [exact Hb |].
  set (s' := transact s (env, c)) in *. clearbody s'.
  specialize (Hn b). rewrite Hb in Hn.
  committed_cases Hc; cbn [bindings]; try assumption;
    rewrite lookup_insert_ne by lia; assumption.
Qed.

Lemma reachable_run_from s txs : reachable s -> reachable (run txs s).
Proof.
  revert s. induction txs as [| tx txs IH]; intros s Hr; [exact Hr |].
  cbn [run fold_left]. apply IH. by constructor.
Qed.

Lemma bindings_kept_run s txs b rec :
  reachable s ->
  bindings s !! b = Some rec -> bindings (run txs s) !! b = Some rec.
Proof.
  revert s. induction txs as [| tx txs IH]; intros s Hr Hb; [exact Hb |].
  cbn [run fold_left]. apply IH; [by constructor |].
  apply bindings_kept; [by apply reachable_bindingsNumbered | exact Hb].
Qed.

(** X5. Bindings are immutable: whatever is called after a binding has
    been stored, [getBinding] keeps returning the same attributes for its
    id. *)
Theorem bindings_immutable s txs b :
  reachable s ->
  1 <= b <= bindingCount s ->
  getBinding b (run txs s) = getBinding b s.
Proof.
  intros Hr Hb. destruct (reachable_bindingsNumbered s Hr) as [_ Hn].
  specialize (Hn b). destruct (bindings s !! b) as [rec|] eqn:E; [| lia].
  unfold getBinding.
  by rewrite (mapping_get_Some _ _ _ _ (bindings_kept_run s txs b rec Hr E)),
    (mapping_get_Some _ _ _ _ E).
Qed.

(** X6. [getBinding] does not fail on an unknown id: at a reachable state
    it returns all zeros for every id outside 1 .. [bindingCount]. *)
Theorem getBinding_unregistered_is_zero s b :
  reachable s ->
  ~ (1 <= b <= bindingCount s) ->
  getBinding b s = (0, 0, 0, 0, 0).
Proof.
  intros Hr Hb. destruct (reachable_bindingsNumbered s Hr) as [_ Hn].
  specialize (Hn b). unfold getBinding.
  destruct (bindings s !! b) as [rec|] eqn:E; [lia |].
  by rewrite (mapping_get_None _ _ _ E).
Qed.

Lemma elem_of_snoc {A} (x y : A) (l : list A) : x ∈ l ++ [y] <-> x ∈ l \/ x = y.
Proof. by rewrite elem_of_app, list_elem_of_singleton. Qed.

Lemma registrationsLogged_store s rec ah :
  bindingsNumbered s ->
  BindingRecord.id rec = bindingCount s + 1 ->
  registrationsLogged s ->
  registrationsLogged
    (mkState (bindingCount s + 1) (<[bindingCount s + 1 := rec]> (bindings s))
       (tasks s) ah (requestToTaskId s)
       (events s ++ [BindingRegistered (bindingCount s + 1) (BindingRecord.uploader rec)])
       (oracleRequests s)).
Proof.
  intros [_ Hn] Hid IH id u. cbn [events bindings].
  rewrite elem_of_snoc, (IH id u).
  destruct (decide (bindingCount s + 1 = id)) as [<- | Hne].
  - rewrite lookup_insert_eq.
    specialize (Hn (bindingCount s + 1)).
    destruct (bindings s !! (bindingCount s + 1)) as [old|]; [lia |].
    split.
    + intros [(x & Hx & _) | [= ->]]; [discriminate | eauto].
    + intros (x & [= <-] & <-). by right.
  - rewrite lookup_insert_ne by assumption. split; [| auto].
    intros [H | [= E _]]; [exact H | congruence].
Qed.

Lemma registrationsLogged_other s e ts rq oq :
  (forall id u, e <> BindingRegistered id u) ->
  registrationsLogged s ->
  registrationsLogged
    (mkState (bindingCount s) (bindings s) ts (abiHashToBinding s) rq
       (events s ++ [e]) oq).
Proof.
  intros He IH id u. cbn [events bindings]. rewrite elem_of_snoc, (IH id u).
  split; [| auto]. intros [H | E]; [exact H |]. by destruct (He id u).
Qed.

Lemma reachable_registrationsLogged s : reachable s -> registrationsLogged s.
Proof.
  induction 1 as [| s [env c] Hr IH].
  - intros id u. cbn. rewrite lookup_empty. split.
    + intros H. by apply elem_of_nil in H.
    + intros (x & Hx & _). discriminate.
  - pose proof (reachable_bindingsNumbered s Hr) as Hn.
    destruct (transact_cases s env c) as [[-> _] | (v & _ & Hc)]; [exact IH |].
    set (s' := transact s (env, c)) in *. clearbody s'.
    committed_cases Hc; try exact IH.
    + by apply (registrationsLogged_store s (BindingRecord.mk _ _ _ _ _ _)).
    + by apply (registrationsLogged_store s (BindingRecord.mk _ _ _ _ _ _)).
    + by apply registrationsLogged_other.
    + by apply registrationsLogged_other.
    + by apply (registrationsLogged_other s _ _ (requestToTaskId s) (oracleRequests s)).
    + by apply (registrationsLogged_other s _ _ (requestToTaskId s) (oracleRequests s)).
Qed.

(** X7. The log tells who registered what: at a reachable state there is
    a [BindingRegistered(id, uploader)] event exactly for the stored
    bindings, with the uploader [getBinding] returns; in particular no id
    is logged with two different uploaders. *)
Theorem registrations_logged s :
  reachable s ->
  forall id u,
    BindingRegistered id u ∈ events s
    <-> 1 <= id <= bindingCount s /\ (getBinding id s).1.1.1.1 = u.
Proof.
  intros Hr id u. rewrite (reachable_registrationsLogged s Hr id u).
  destruct (reachable_bindingsNumbered s Hr) as [_ Hn]. specialize (Hn id).
  unfold getBinding.
  destruct (bindings s !! id) as [rec|] eqn:E.
  - rewrite (mapping_get_Some _ _ _ _ E). cbn. split.
    + intros (x & [= <-] & <-). split; [tauto | reflexivity].
    + intros [_ <-]. eauto.
  - split; [intros (x & Hx & _); discriminate | lia].
Qed.

Lemma indexSound_transact s tx :
  bindingsNumbered s -> indexSound s -> indexSound (transact s tx).
Proof.
  intros Hn IH. destruct tx as [env c].
  destruct (transact_cases s env c) as [[-> _] | (v & _ & Hc)]; [exact IH |].
  pose proof (fun b rec => bindings_kept s (env, c) b rec Hn) as Hkept.
  set (s' := transact s (env, c)) in *. clearbody s'.
  destruct Hc as [a m e id H | | | | | |].
  - apply registerBinding_inv in H as (-> & _ & ->).
    intros h i. cbn [abiHashToBinding bindings] in *.
    destruct (decide (a = h)) as [<- | Hne].
    + rewrite lookup_insert_eq. intros [= <-].
      rewrite lookup_insert_eq. eauto.
    + rewrite lookup_insert_ne by assumption. intros Hh.
      destruct (IH h i Hh) as (rec & Hrec & Habi). eauto.
  - apply submitExternalEncryptedCount_inv in H as (_ & _ & ->).
    intros h i Hh. destruct (IH h i Hh) as (rec & Hrec & Habi). eauto.
  - apply requestBindingDecryption_inv in H as (_ & _ & ? & _ & ->). exact IH.
  - apply requestCountDecryption_inv in H as (_ & _ & ? & _ & ->). exact IH.
  - apply handleDecryption_inv in H as (_ & _ & _ & ->). exact IH.
  - apply handleCountDecryption_inv in H as (_ & _ & _ & _ & ->). exact IH.
  - by subst.
Qed.

Lemma reachable_indexSound s : reachable s -> indexSound s.
Proof.
  induction 1 as [| s tx Hr IH].
  - intros h id Hh. cbn in Hh. by rewrite lookup_empty in Hh.
  - apply indexSound_transact; [by apply reachable_bindingsNumbered | exact IH].
Qed.

(** X8. The content-hash index is sound: at a reachable state a lookup
    that does not return the sentinel 0 returns the id of a stored
    binding (within 1 .. [bindingCount]) registered with that very
    content hash. *)
Theorem lookup_returns_binding_with_hash s h :
  reachable s ->
  lookupBindingByAbi h s <> 0 ->
  1 <= lookupBindingByAbi h s <= bindingCount s
  /\ (getBinding (lookupBindingByAbi h s) s).1.1.1.2 = h.
Proof.
  intros Hr Hne. unfold lookupBindingByAbi in *.
  destruct (abiHashToBinding s !! h) as [id|] eqn:E.
  - rewrite (mapping_get_Some _ _ _ _ E) in *.
    destruct (reachable_indexSound s Hr h id E) as (rec & Hrec & Habi).
    destruct (reachable_bindingsNumbered s Hr) as [_ Hn]. specialize (Hn id).
    rewrite Hrec in Hn. split; [tauto |].
    unfold getBinding. by rewrite (mapping_get_Some _ _ _ _ Hrec).
  - rewrite (mapping_get_None _ _ _ E) in Hne. contradiction.
Qed.

End BindingStore.

(** ** Requests and their callbacks *)

Section RequestsAndCallbacks.

Context {fhe : FHE}.

Lemma entriesAssigned_open s reqId tid ts ev q :
  assignedId q = reqId ->
  entriesAssigned s ->
  entriesAssigned
    (mkState (bindingCount s) (bindings s) ts (abiHashToBinding s)
       (<[reqId := tid]> (requestToTaskId s)) ev (oracleRequests s ++ [q])).
Proof.
  intros Hq IH r t. cbn [requestToTaskId oracleRequests].
  rewrite fmap_app, elem_of_app. cbn. rewrite list_elem_of_singleton.
  destruct (decide (reqId = r)) as [<- | Hne]; [auto |].
  rewrite lookup_insert_ne by assumption. intros H. left. by apply (IH r t).
Qed.

Lemma reachable_entriesAssigned s : reachable s -> entriesAssigned s.
Proof.
  induction 1 as [| s [env c] _ IH].
  - intros r t H. cbn in H. by rewrite lookup_empty in H.
  - destruct (transact_cases s env c) as [[-> _] | (v & _ & Hc)]; [exact IH |].
    set (s' := transact s (env, c)) in *. clearbody s'.
    committed_cases Hc; try exact IH.
    + by apply entriesAssigned_open.
    + by apply entriesAssigned_open.
Qed.

(** X9. A callback for a request id the oracle never assigned to this
    contract is rejected: at a reachable state, whatever the cleartexts
    and the proof, both handlers revert with "Unknown request" and the
    state stays as it was. *)
Theorem unassigned_request_rejected s r :
  reachable s ->
  r ∉ assignedId <$> oracleRequests s ->
  forall env c,
    completionOf r c ->
    call env c s = Revert (Require "Unknown request")
    /\ transact s (env, c) = s.
Proof.
  intros Hr Hnot env c Hc.
  assert (H0 : correlated r s = 0).
  { unfold correlated.
    destruct (requestToTaskId s !! r) as [t|] eqn:E.
    - exfalso. apply Hnot. by apply (reachable_entriesAssigned s Hr r t).
    - by apply mapping_get_None. }
  assert (Hrev : call env c s = Revert (Require "Unknown request")).
  { destruct c; cbn [completionOf] in Hc; try contradiction; subst; cbn [call].
    - rewrite handleDecryption_cases. cbv zeta. by rewrite H0.
    - rewrite handleCountDecryption_cases. cbv zeta. by rewrite H0. }
  split; [exact Hrev |].
  unfold transact, commit. cbn [fst snd]. by rewrite Hrev.
Qed.

(** A committed request, on either path, in one shape. *)
Lemma request_inv env c s s' t :
  isRequest c ->
  call env c s = Ok (s', Some t) ->
  t = requestTaskId env c
  /\ exists q,
       (callbackSelector q = handleDecryption_selector
        \/ callbackSelector q = handleCountDecryption_selector)
       /\ ciphertexts q
          = [toBytes32 (BindingRecord.encryptedSignature
                          (mapping_get BindingRecord.zero (bindings s)
                             (requestedBinding c)))]
       /\ BindingRecord.id
            (mapping_get BindingRecord.zero (bindings s) (requestedBinding c)) <> 0
       /\ s' = mkState (bindingCount s) (bindings s)
                 (<[t := openedTask env c t]> (tasks s))
                 (abiHashToBinding s)
                 (<[assignedId q := t]> (requestToTaskId s))
                 (events s ++ [DecryptionRequested t (requestedBinding c)])
                 (oracleRequests s ++ [q]).
Proof.
  intros Hreq Hcall. apply call_inv in Hcall.
  destruct c; cbn [isRequest] in Hreq; try contradiction; inversion Hcall; subst.
  - match goal with H : requestBindingDecryption _ _ _ = _ |- _ =>
      apply requestBindingDecryption_inv in H as (Hid & -> & reqId & _ & ->) end.
    split; [reflexivity |]. eexists (mkOracleRequest _ _ reqId).
    cbn [callbackSelector ciphertexts assignedId requestedBinding].
    split; [by left |]. split; [reflexivity |]. split; [exact Hid | reflexivity].
  - match goal with H : requestCountDecryption _ _ _ = _ |- _ =>
      apply requestCountDecryption_inv in H as (Hid & -> & reqId & _ & ->) end.
    split; [reflexivity |]. eexists (mkOracleRequest _ _ reqId).
    cbn [callbackSelector ciphertexts assignedId requestedBinding].
    split; [by right |]. split; [reflexivity |]. split; [exact Hid | reflexivity].
Qed.

(** X10. From request to completion.  A committed decryption request, on
    either path, with a non-zero task id sends the oracle one more
    request and correlates the id the oracle assigned with the returned
    task; a [handleDecryption] callback for that id whose proof verifies
    then commits, completes the task, and the log has gained
    [DecryptionRequested] and [DecryptionCompleted], both with the task
    id and the binding id of the request. *)
Theorem request_then_complete env c s s1 t :
  isRequest c ->
  call env c s = Ok (s1, Some t) ->
  t <> 0 ->
  exists r,
    assignedId <$> oracleRequests s1 = (assignedId <$> oracleRequests s) ++ [r]
    /\ correlated r s1 = t
    /\ isTaskCompleted t s1 = false
    /\ forall cleartexts proof,
         checkSignatures (oracleRequests s1) r cleartexts proof = true ->
         exists s2,
           handleDecryption r cleartexts proof s1 = Ok s2
           /\ isTaskCompleted t s2 = true
           /\ events s2
              = events s ++ [DecryptionRequested t (requestedBinding c);
                             DecryptionCompleted t (requestedBinding c)].
Proof.
  intros Hreq Hcall Hne.
  destruct (request_inv _ _ _ _ _ Hreq Hcall) as (_ & q & _ & _ & _ & ->).
  exists (assignedId q).
  assert (Hcor : correlated (assignedId q)
                   (mkState (bindingCount s) (bindings s)
                      (<[t := openedTask env c t]> (tasks s)) (abiHashToBinding s)
                      (<[assignedId q := t]> (requestToTaskId s))
                      (events s ++ [DecryptionRequested t (requestedBinding c)])
                      (oracleRequests s ++ [q])) = t).
  { unfold correlated. cbn [requestToTaskId]. apply mapping_get_insert_eq. }
  assert (Hpend : isTaskCompleted t
                   (mkState (bindingCount s) (bindings s)
                      (<[t := openedTask env c t]> (tasks s)) (abiHashToBinding s)
                      (<[assignedId q := t]> (requestToTaskId s))
                      (events s ++ [DecryptionRequested t (requestedBinding c)])
                      (oracleRequests s ++ [q])) = false).
  { unfold isTaskCompleted. cbn [tasks]. by rewrite mapping_get_insert_eq. }
  split; [cbn [oracleRequests]; by rewrite fmap_app |].
  split; [exact Hcor |]. split; [exact Hpend |].
  intros cleartexts proof Hsig. eexists. split.
  - rewrite handleDecryption_cases. cbv zeta. rewrite Hcor.
    apply Z.eqb_neq in Hne. rewrite Hne, Hpend, Hsig. reflexivity.
  - split; [apply isTaskCompleted_completedState |].
    unfold completedState. cbn [events tasks].
    rewrite mapping_get_insert_eq. cbn [openedTask DecryptTask.bindingId].
    by rewrite <- app_assoc.
Qed.

(** X11. A completion touches one task and nothing else: the counter, the
    bindings, the content-hash index, the correlation map and the oracle
    log are as before, every other task is as before, and the completed
    task keeps its id, binding, requester and creation time. *)
Theorem completion_touches_one_task env r c s s' v :
  completionOf r c ->
  call env c s = Ok (s', v) ->
  bindingCount s' = bindingCount s
  /\ bindings s' = bindings s
  /\ abiHashToBinding s' = abiHashToBinding s
  /\ requestToTaskId s' = requestToTaskId s
  /\ oracleRequests s' = oracleRequests s
  /\ (forall t, t <> correlated r s -> tasks s' !! t = tasks s !! t)
  /\ tasks s' !! correlated r s
     = Some (DecryptTask.set_completed true
               (mapping_get DecryptTask.zero (tasks s) (correlated r s))).
Proof.
  intros Hc Hcall.
  destruct (completion_commits _ _ _ _ _ _ Hc Hcall) as (_ & _ & ->).
  unfold completedState. cbn [bindingCount bindings abiHashToBinding
    requestToTaskId oracleRequests tasks].
  repeat split.
  - intros t Ht. by rewrite lookup_insert_ne.
  - by rewrite lookup_insert_eq.
Qed.

(** X12. Completions of different tasks commute: when two verified
    callbacks for different pending tasks can each be delivered, they can
    be delivered in either order, and both orders end with the same
    storage; only the order of the two [DecryptionCompleted] events
    differs. *)
Theorem completions_commute r1 c1 p1 r2 c2 p2 s sa sb :
  correlated r1 s <> correlated r2 s ->
  handleDecryption r1 c1 p1 s = Ok sa ->
  handleDecryption r2 c2 p2 s = Ok sb ->
  exists sab sba,
    handleDecryption r2 c2 p2 sa = Ok sab
    /\ handleDecryption r1 c1 p1 sb = Ok sba
    /\ tasks sab = tasks sba
    /\ requestToTaskId sab = requestToTaskId sba
    /\ bindings sab = bindings sba
    /\ isTaskCompleted (correlated r1 s) sab = true
    /\ isTaskCompleted (correlated r2 s) sab = true
    /\ events sab ≡ₚ events sba.
Proof.
  intros Hne Ha Hb.
  apply handleDecryption_inv in Ha as (Ha0 & Hap & Has & ->).
  apply handleDecryption_inv in Hb as (Hb0 & Hbp & Hbs & ->).
  apply Z.eqb_neq in Ha0, Hb0.
  exists (completedState (correlated r2 s) (completedState (correlated r1 s) s)),
         (completedState (correlated r1 s) (completedState (correlated r2 s) s)).
  split.
  { rewrite handleDecryption_cases. cbv zeta.
    rewrite correlated_completedState, Hb0.
    rewrite isTaskCompleted_completedState_ne, Hbp by assumption.
    cbn [completedState oracleRequests]. by rewrite Hbs. }
  split.
  { rewrite handleDecryption_cases. cbv zeta.
    rewrite correlated_completedState, Ha0.
    rewrite isTaskCompleted_completedState_ne, Hap by congruence.
    cbn [completedState oracleRequests]. by rewrite Has. }
  unfold completedState at 1 3. cbn [tasks requestToTaskId bindings events].
  unfold completedState. cbn [tasks requestToTaskId bindings events].
  rewrite !mapping_get_insert_ne by congruence.
  split; [apply insert_insert_ne; congruence |].
  split; [reflexivity |]. split; [reflexivity |].
  split.
  { unfold isTaskCompleted. cbn [tasks].
    rewrite mapping_get_insert_ne, mapping_get_insert_eq by congruence.
    reflexivity. }
  split.
  { unfold isTaskCompleted. cbn [tasks]. by rewrite mapping_get_insert_eq. }
  rewrite <- !app_assoc. apply Permutation_app_head. cbn. apply perm_swap.
Qed.

End RequestsAndCallbacks.

(** ** What the storage and the logs always satisfy *)

Section StorageAndLogs.

Context {fhe : FHE}.

Lemma reachable_tasksWellFormed s : reachable s -> tasksWellFormed s.
Proof.
  induction 1 as [| s [env c] Hr IH].
  - intros t task H. cbn in H. by rewrite lookup_empty in H.
  - pose proof (reachable_bindingsNumbered s Hr) as [_ Hn].
    pose proof (reachable_entriesLeadToTasks s Hr) as Hent.
    destruct (transact_cases s env c) as [[-> _] | (v & Hcall & Hc)]; [exact IH |].
    set (s' := transact s (env, c)) in *. clearbody s'.
    destruct Hc as [? ? ? ? H | ? ? H | b t0 H | b t0 H | r ? ? H | r ? ? H | H].
    + apply registerBinding_inv in H as (-> & _ & ->).
      intros t task Ht. destruct (IH t task Ht) as (Hid & Hb & Hev).
      cbn [bindingCount events] in *. rewrite elem_of_snoc.
      split; [exact Hid |]. split; [lia | by left].
    + apply submitExternalEncryptedCount_inv in H as (-> & _ & ->).
      intros t task Ht. destruct (IH t task Ht) as (Hid & Hb & Hev).
      cbn [bindingCount events] in *. rewrite elem_of_snoc.
      split; [exact Hid |]. split; [lia | by left].
    + destruct (request_inv env (RequestBindingDecryption b) s s' t0 I Hcall)
        as (_ & q & _ & _ & Hrec & ->).
      cbn [requestedBinding] in *. specialize (Hn b).
      intros t task. cbn [tasks bindingCount events]. rewrite elem_of_snoc.
      destruct (decide (t0 = t)) as [<- | Hne].
      * rewrite lookup_insert_eq. intros [= <-].
        cbn [openedTask DecryptTask.id DecryptTask.bindingId requestedBinding].
        split; [reflexivity |]. split; [| by right].
        destruct (bindings s !! b) as [rec|] eqn:E; [tauto |].
        rewrite (mapping_get_None _ _ _ E) in Hrec. by destruct Hrec.
      * rewrite lookup_insert_ne by assumption. intros Ht.
        destruct (IH t task Ht) as (Hid & Hb & Hev). auto.
    + destruct (request_inv env (RequestCountDecryption b) s s' t0 I Hcall)
        as (_ & q & _ & _ & Hrec & ->).
      cbn [requestedBinding] in *. specialize (Hn b).
      intros t task. cbn [tasks bindingCount events]. rewrite elem_of_snoc.
      destruct (decide (t0 = t)) as [<- | Hne].
      * rewrite lookup_insert_eq. intros [= <-].
        cbn [openedTask DecryptTask.id DecryptTask.bindingId requestedBinding].
        split; [reflexivity |]. split; [| by right].
        destruct (bindings s !! b) as [rec|] eqn:E; [tauto |].
        rewrite (mapping_get_None _ _ _ E) in Hrec. by destruct Hrec.
      * rewrite lookup_insert_ne by assumption. intros Ht.
        destruct (IH t task Ht) as (Hid & Hb & Hev). auto.
    + apply handleDecryption_inv in H as (Hne0 & _ & _ & ->).
      destruct (Hent r Hne0) as (old & Hold & Hoid).
      intros t task. unfold completedState. cbn [tasks bindingCount events].
      rewrite elem_of_snoc, (mapping_get_Some _ _ _ _ Hold).
      destruct (IH _ _ Hold) as (Hid & Hb & Hev).
      destruct (decide (correlated r s = t)) as [<- | Hd].
      * rewrite lookup_insert_eq. intros [= <-]. cbn. auto.
      * rewrite lookup_insert_ne by assumption. intros Ht.
        destruct (IH t task Ht) as (Hid' & Hb' & Hev'). auto.
    + apply handleCountDecryption_inv in H as (Hne0 & _ & _ & _ & ->).
      destruct (Hent r Hne0) as (old & Hold & Hoid).
      intros t task. unfold completedState. cbn [tasks bindingCount events].
      rewrite elem_of_snoc, (mapping_get_Some _ _ _ _ Hold).
      destruct (IH _ _ Hold) as (Hid & Hb & Hev).
      destruct (decide (correlated r s = t)) as [<- | Hd].
      * rewrite lookup_insert_eq. intros [= <-]. cbn. auto.
      * rewrite lookup_insert_ne by assumption. intros Ht.
        destruct (IH t task Ht) as (Hid' & Hb' & Hev'). auto.
    + by subst.
Qed.

(** X13. Every stored task is well formed: at a reachable state it
    carries the id it is stored under, it is for a binding that exists
    (its binding id lies in 1 .. [bindingCount]), and the log holds the
    [DecryptionRequested] event with its task id and binding id. *)
Theorem stored_tasks_well_formed s t task :
  reachable s ->
  tasks s !! t = Some task ->
  DecryptTask.id task = t
  /\ 1 <= DecryptTask.bindingId task <= bindingCount s
  /\ DecryptionRequested t (DecryptTask.bindingId task) ∈ events s.
Proof. intros Hr Ht. exact (reachable_tasksWellFormed s Hr t task Ht). Qed.

Lemma completionsLogged_open s t task rq ev oq :
  DecryptTask.completed task = false ->
  completionsLogged s ->
  completionsLogged
    (mkState (bindingCount s) (bindings s) (<[t := task]> (tasks s))
       (abiHashToBinding s) rq (events s ++ [ev]) oq).
Proof.
  intros Hpend IH t'. rewrite completed_after_insert. cbn [tasks events].
  destruct (decide (t = t')) as [<- | Hne]; [congruence |].
  fold (isTaskCompleted t' s). intros Hdone.
  destruct (IH t' Hdone) as [H0 Hev]. split; [exact H0 |].
  rewrite mapping_get_insert_ne by assumption. rewrite elem_of_snoc. by left.
Qed.

Lemma completionsLogged_completed s t :
  t <> 0 -> completionsLogged s -> completionsLogged (completedState t s).
Proof.
  intros Ht IH t'. unfold completedState at 2 3. cbn [tasks events].
  rewrite elem_of_snoc.
  destruct (decide (t = t')) as [<- | Hne].
  - intros _. split; [exact Ht |]. right.
    by rewrite mapping_get_insert_eq.
  - rewrite isTaskCompleted_completedState_ne by assumption. intros Hdone.
    destruct (IH t' Hdone) as [H0 Hev]. split; [exact H0 |].
    rewrite mapping_get_insert_ne by assumption. by left.
Qed.

Lemma reachable_completionsLogged s : reachable s -> completionsLogged s.
Proof.
  induction 1 as [| s [env c] Hr IH].
  - intros t H. discriminate H.
  - destruct (transact_cases s env c) as [[-> _] | (v & Hcall & Hc)]; [exact IH |].
    set (s' := transact s (env, c)) in *. clearbody s'.
    destruct Hc as [? ? ? ? H | ? ? H | b t0 H | b t0 H | r ? ? H | r ? ? H | H].
    + apply registerBinding_inv in H as (-> & _ & ->).
      intros t Hdone. destruct (IH t Hdone) as [H0 Hev].
      cbn [tasks events]. rewrite elem_of_snoc. auto.
    + apply submitExternalEncryptedCount_inv in H as (-> & _ & ->).
      intros t Hdone. destruct (IH t Hdone) as [H0 Hev].
      cbn [tasks events]. rewrite elem_of_snoc. auto.
    + destruct (request_inv env (RequestBindingDecryption b) s s' t0 I Hcall)
        as (_ & q & _ & _ & _ & ->).
      by apply completionsLogged_open.
    + destruct (request_inv env (RequestCountDecryption b) s s' t0 I Hcall)
        as (_ & q & _ & _ & _ & ->).
      by apply completionsLogged_open.
    + apply handleDecryption_inv in H as (Hne0 & _ & _ & ->).
      by apply completionsLogged_completed.
    + apply handleCountDecryption_inv in H as (Hne0 & _ & _ & _ & ->).
      by apply completionsLogged_completed.
    + by subst.
Qed.

(** X14. No task is completed silently: at a reachable state, whenever
    [isTaskCompleted] answers [true] the task id is not 0, the task is
    stored, and the log holds a [DecryptionCompleted] event with that
    task id and the task's binding id. *)
Theorem completed_tasks_are_logged s t :
  reachable s ->
  isTaskCompleted t s = true ->
  t <> 0
  /\ exists task,
       tasks s !! t = Some task
       /\ DecryptionCompleted t (DecryptTask.bindingId task) ∈ events s.
Proof.
  intros Hr Hdone. destruct (reachable_completionsLogged s Hr t Hdone) as [H0 Hev].
  split; [exact H0 |].
  unfold isTaskCompleted in Hdone.
  destruct (tasks s !! t) as [task|] eqn:E.
  - exists task. split; [reflexivity |].
    by rewrite (mapping_get_Some _ _ _ _ E) in Hev.
  - rewrite (mapping_get_None _ _ _ E) in Hdone. discriminate.
Qed.

Lemma oracleAsksStored_bindings s bc bs ts ah rq ev :
  (forall b rec, bindings s !! b = Some rec -> bs !! b = Some rec) ->
  oracleAsksStored s ->
  oracleAsksStored (mkState bc bs ts ah rq ev (oracleRequests s)).
Proof.
  intros Hkept IH q Hq. destruct (IH q Hq) as (Hsel & b & rec & Hb & Hc).
  split; [exact Hsel |]. exists b, rec. cbn [bindings]. auto.
Qed.

Lemma oracleAsksStored_request s ts rq ev q :
  (callbackSelector q = handleDecryption_selector
   \/ callbackSelector q = handleCountDecryption_selector) ->
  (exists b rec, bindings s !! b = Some rec
     /\ ciphertexts q = [toBytes32 (BindingRecord.encryptedSignature rec)]) ->
  oracleAsksStored s ->
  oracleAsksStored
    (mkState (bindingCount s) (bindings s) ts (abiHashToBinding s) rq ev
       (oracleRequests s ++ [q])).
Proof.
  intros Hsel Hcts IH q'. cbn [oracleRequests bindings]. rewrite elem_of_snoc.
  intros [Hq | ->]; [by apply IH | auto].
Qed.

Lemma request_binding_stored s b :
  BindingRecord.id (mapping_get BindingRecord.zero (bindings s) b) <> 0 ->
  bindings s !! b = Some (mapping_get BindingRecord.zero (bindings s) b).
Proof.
  intros Hid. destruct (bindings s !! b) as [rec|] eqn:E.
  - by rewrite (mapping_get_Some _ _ _ _ E).
  - rewrite (mapping_get_None _ _ _ E) in Hid. by destruct Hid.
Qed.

Lemma reachable_oracleAsksStored s : reachable s -> oracleAsksStored s.
Proof.
  induction 1 as [| s [env c] Hr IH].
  - intros q Hq. by apply elem_of_nil in Hq.
  - pose proof (reachable_bindingsNumbered s Hr) as Hn.
    pose proof (fun b rec => bindings_kept s (env, c) b rec Hn) as Hkept.
    destruct (transact_cases s env c) as [[-> _] | (v & Hcall & Hc)]; [exact IH |].
    set (s' := transact s (env, c)) in *. clearbody s'.
    destruct Hc as [? ? ? ? H | ? ? H | b t0 H | b t0 H | r ? ? H | r ? ? H | H].
    + apply registerBinding_inv in H as (-> & _ & ->).
      by apply oracleAsksStored_bindings.
    + apply submitExternalEncryptedCount_inv in H as (-> & _ & ->).
      by apply oracleAsksStored_bindings.
    + destruct (request_inv env (RequestBindingDecryption b) s s' t0 I Hcall)
        as (_ & q & Hsel & Hcts & Hrec & ->).
      apply oracleAsksStored_request; [exact Hsel | | exact IH].
      eexists _, _. split; [by apply request_binding_stored | exact Hcts].
    + destruct (request_inv env (RequestCountDecryption b) s s' t0 I Hcall)
        as (_ & q & Hsel & Hcts & Hrec & ->).
      apply oracleAsksStored_request; [exact Hsel | | exact IH].
      eexists _, _. split; [by apply request_binding_stored | exact Hcts].
    + apply handleDecryption_inv in H as (_ & _ & _ & ->). exact IH.
    + apply handleCountDecryption_inv in H as (_ & _ & _ & _ & ->). exact IH.
    + by subst.
Qed.

(** X15. The contract only asks the oracle about its own bindings: at a
    reachable state every request in the oracle log names one of the two
    callback selectors and exactly one ciphertext, the handle of a
    binding stored under an id in 1 .. [bindingCount]. *)
Theorem oracle_is_asked_about_stored_bindings s q :
  reachable s ->
  q ∈ oracleRequests s ->
  (callbackSelector q = handleDecryption_selector
   \/ callbackSelector q = handleCountDecryption_selector)
  /\ exists b,
       1 <= b <= bindingCount s
       /\ ciphertexts q = [toBytes32 (getBinding b s).1.2].
Proof.
  intros Hr Hq.
  destruct (reachable_oracleAsksStored s Hr q Hq) as (Hsel & b & rec & Hb & Hc).
  split; [exact Hsel |]. exists b.
  destruct (reachable_bindingsNumbered s Hr) as [_ Hn]. specialize (Hn b).
  rewrite Hb in Hn. split; [tauto |].
  unfold getBinding. by rewrite (mapping_get_Some _ _ _ _ Hb).
Qed.

Lemma transact_grows s tx :
  events s `prefix_of` events (transact s tx)
  /\ oracleRequests s `prefix_of` oracleRequests (transact s tx)
  /\ bindingCount s <= bindingCount (transact s tx)
  /\ (forall b, is_Some (bindings s !! b) -> is_Some (bindings (transact s tx) !! b))
  /\ (forall t, is_Some (tasks s !! t) -> is_Some (tasks (transact s tx) !! t))
  /\ (forall r, is_Some (requestToTaskId s !! r) ->
                is_Some (requestToTaskId (transact s tx) !! r)).
Proof.
  destruct tx as [env c].
  destruct (transact_cases s env c) as [[-> _] | (v & _ & Hc)].
  { repeat split; auto; reflexivity. }
  set (s' := transact s (env, c)) in *. clearbody s'.
  assert (Hins : forall (V : Type) (m : gmap Z V) k x j,
             is_Some (m !! j) -> is_Some (<[k := x]> m !! j)).
  { intros V m k x j Hj. destruct (decide (k = j)) as [-> | Hne].
    - rewrite lookup_insert_eq. eauto.
    - by rewrite lookup_insert_ne. }
  committed_cases Hc; unfold completedState;
    cbn [events oracleRequests bindingCount bindings tasks requestToTaskId];
    repeat split; auto; try reflexivity; try lia;
    try (by apply prefix_app_r).
Qed.

Lemma registeredIds_snoc evs e :
  registeredIds (evs ++ [e])
  = registeredIds evs
      ++ match e with BindingRegistered id _ => [id] | _ => [] end.
Proof.
  unfold registeredIds. rewrite flat_map_app. cbn [flat_map].
  by rewrite app_nil_r.
Qed.

(** X21. Ids are announced in the order they are handed out: at a
    reachable state the ids of the [BindingRegistered] events in the log
    are 1, 2, ..., [bindingCount], each exactly once. *)
Theorem registered_ids_in_order s :
  reachable s ->
  registeredIds (events s) = seqZ 1 (bindingCount s).
Proof.
  induction 1 as [| s [env c] Hr IH]; [reflexivity |].
  destruct (reachable_bindingsNumbered s Hr) as [Hc _].
  destruct (transact_cases s env c) as [[-> _] | (v & _ & Hc')]; [exact IH |].
  set (s' := transact s (env, c)) in *. clearbody s'.
  committed_cases Hc'; unfold completedState; cbn [events bindingCount];
    try (rewrite registeredIds_snoc, IH; cbn; by rewrite ?app_nil_r);
    try exact IH.
  - rewrite registeredIds_snoc, IH, seqZ_app by lia.
    replace (1 + bindingCount s) with (bindingCount s + 1) by lia.
    reflexivity.
  - rewrite registeredIds_snoc, IH, seqZ_app by lia.
    replace (1 + bindingCount s) with (bindingCount s + 1) by lia.
    reflexivity.
Qed.

(** X16. Nothing is ever taken back.  Over any further history the event
    log and the oracle log only grow at the end, the counter does not go
    down, and no binding, task or correlation entry disappears. *)
Theorem storage_is_append_only s txs :
  events s `prefix_of` events (run txs s)
  /\ oracleRequests s `prefix_of` oracleRequests (run txs s)
  /\ bindingCount s <= bindingCount (run txs s)
  /\ (forall b, is_Some (bindings s !! b) -> is_Some (bindings (run txs s) !! b))
  /\ (forall t, is_Some (tasks s !! t) -> is_Some (tasks (run txs s) !! t))
  /\ (forall r, is_Some (requestToTaskId s !! r) ->
                is_Some (requestToTaskId (run txs s) !! r)).
Proof.
  revert s. induction txs as [| tx txs IH]; intros s.
  { repeat split; auto; reflexivity. }
  cbn [run fold_left]. fold (run txs (transact s tx)).
  destruct (transact_grows s tx) as (H1 & H2 & H3 & H4 & H5 & H6).
  destruct (IH (transact s tx)) as (I1 & I2 & I3 & I4 & I5 & I6).
  repeat split; auto.
  - by etrans.
  - by etrans.
  - lia.
Qed.

End StorageAndLogs.

(** ** Task ids and cleartexts *)

Section IdsAndCleartexts.

Context {fhe : FHE}.

(** X17. A task that is opened again can be completed again through its
    old request id.  After a completion for request [r], a committed
    request that returns the same task id stores a pending task under it
    while the entry of [r] still leads there; a callback for [r] whose
    proof verifies then commits once more, and the log holds two
    [DecryptionCompleted] events for the task. *)
Theorem reopened_task_completes_again r c0 p0 s s1 env creq s2 c1 p1 :
  handleDecryption r c0 p0 s = Ok s1 ->
  isRequest creq ->
  call env creq s1 = Ok (s2, Some (correlated r s)) ->
  checkSignatures (oracleRequests s2) r c1 p1 = true ->
  exists s3,
    handleDecryption r c1 p1 s2 = Ok s3
    /\ isTaskCompleted (correlated r s) s3 = true
    /\ events s3
       = events s
           ++ [DecryptionCompleted (correlated r s)
                 (DecryptTask.bindingId
                    (mapping_get DecryptTask.zero (tasks s) (correlated r s)));
               DecryptionRequested (correlated r s) (requestedBinding creq);
               DecryptionCompleted (correlated r s) (requestedBinding creq)].
Proof.
  intros H0 Hreq Hcall Hsig.
  apply handleDecryption_inv in H0 as (Hne & _ & _ & ->).
  destruct (request_inv _ _ _ _ _ Hreq Hcall) as (_ & q & _ & _ & _ & ->).
  set (t := correlated r s) in *.
  match goal with |- context [handleDecryption _ _ _ ?st] => set (s2 := st) in * end.
  assert (Hcor : correlated r s2 = t).
  { subst s2. rewrite correlated_insert. destruct (decide (assignedId q = r));
      [reflexivity |]. unfold completedState. cbn [requestToTaskId]. reflexivity. }
  assert (Hpend : isTaskCompleted t s2 = false).
  { subst s2. unfold isTaskCompleted. cbn [tasks].
    by rewrite mapping_get_insert_eq. }
  exists (completedState t s2). split.
  - rewrite handleDecryption_cases. cbv zeta. rewrite Hcor.
    apply Z.eqb_neq in Hne. by rewrite Hne, Hpend, Hsig.
  - split; [apply isTaskCompleted_completedState |].
    subst s2. unfold completedState. cbn [events tasks].
    rewrite mapping_get_insert_eq. cbn [openedTask DecryptTask.bindingId].
    by rewrite <- !app_assoc.
Qed.

Lemma decode_encode_uint256 v rest :
  0 <= v <= uint256_max ->
  Abi.decode_uint32 (Abi.encode_uint256 v ++ rest)
  = if v <=? 2 ^ 32 - 1 then Some v else None.
Proof.
  intros Hv. unfold Abi.decode_uint32, Abi.encode_uint256.
  assert (Hlen : (length (Z_to_be 32 v ++ rest) <? 32)%nat = false).
  { apply Nat.ltb_ge. rewrite length_app, length_Z_to_be. lia. }
  rewrite Hlen. cbv zeta.
  rewrite take_app_length' by (by rewrite length_Z_to_be).
  rewrite be_to_Z_to_be.
  change (256 ^ Z.of_nat 32) with (uint256_max + 1).
  rewrite Z.mod_small by lia. reflexivity.
Qed.

(** X18. What [handleCountDecryption] accepts as cleartexts.  For a
    pending task and a proof that verifies: cleartexts that start with
    the 32-byte word of a value below 2^32, whatever follows, complete
    the task; a first word of 2^32 or more, or fewer than 32 bytes
    (the empty string included), make the call revert in the decoder. *)
Theorem count_callback_cleartexts r s cleartexts proof :
  correlated r s <> 0 ->
  isTaskCompleted (correlated r s) s = false ->
  checkSignatures (oracleRequests s) r cleartexts proof = true ->
  (forall v rest,
     cleartexts = Abi.encode_uint256 v ++ rest -> 0 <= v <= 2 ^ 32 - 1 ->
     exists s', handleCountDecryption r cleartexts proof s = Ok s'
                /\ isTaskCompleted (correlated r s) s' = true)
  /\ (forall v rest,
        cleartexts = Abi.encode_uint256 v ++ rest -> 2 ^ 32 <= v <= uint256_max ->
        handleCountDecryption r cleartexts proof s = Revert DecodeFailed)
  /\ ((length cleartexts < 32)%nat ->
      handleCountDecryption r cleartexts proof s = Revert DecodeFailed).
Proof.
  intros Hne Hpend Hsig. apply Z.eqb_neq in Hne.
  rewrite handleCountDecryption_cases. cbv zeta. rewrite Hne, Hpend, Hsig.
  split; [| split].
  - intros v rest -> Hv.
    rewrite decode_encode_uint256 by (unfold uint256_max; lia).
    assert (E : (v <=? 2 ^ 32 - 1) = true) by (apply Z.leb_le; lia).
    rewrite E. eexists. split; [reflexivity |].
    apply isTaskCompleted_completedState.
  - intros v rest -> Hv.
    rewrite decode_encode_uint256 by lia.
    assert (E : (v <=? 2 ^ 32 - 1) = false) by (apply Z.leb_gt; lia).
    by rewrite E.
  - intros Hshort. unfold Abi.decode_uint32.
    assert (E : (length cleartexts <? 32)%nat = true) by (by apply Nat.ltb_lt).
    by rewrite E.
Qed.

Lemma byte_to_Z_bounds b : 0 <= byte_to_Z b < 256.
Proof.
  unfold byte_to_Z. pose proof (Byte.to_N_bounded b). lia.
Qed.

Lemma be_to_Z_bounds bs : 0 <= be_to_Z bs < 256 ^ Z.of_nat (length bs).
Proof.
  induction bs as [| b bs IH] using rev_ind; [cbn; lia |].
  rewrite be_to_Z_snoc, length_app. cbn [length].
  replace (Z.of_nat (length bs + 1)) with (Z.succ (Z.of_nat (length bs))) by lia.
  rewrite Z.pow_succ_r by lia.
  pose proof (byte_to_Z_bounds b). nia.
Qed.

Lemma length_Z_to_le n z : length (Z_to_le n z) = n.
Proof.
  revert z. induction n as [| n IH]; intros z; [reflexivity |].
  cbn [Z_to_le length]. by rewrite IH.
Qed.

Lemma length_keccak256 m : length (Keccak.keccak256 m) = 32%nat.
Proof.
  unfold Keccak.keccak256, Keccak.squeeze. cbv zeta.
  cbn [seq flat_map]. rewrite !length_app, !length_Z_to_le. reflexivity.
Qed.

Transparent keccak256_uint.

Lemma keccak256_uint_bounds m : 0 <= keccak256_uint m <= uint256_max.
Proof.
  unfold keccak256_uint. pose proof (be_to_Z_bounds (Keccak.keccak256 m)) as H.
  rewrite length_keccak256 in H.
  change (256 ^ Z.of_nat 32) with (uint256_max + 1) in H. lia.
Qed.

Opaque keccak256_uint.

(** X19. The task id a committed request returns is a [uint256]: the
    32-byte digest read as a number, between 0 and 2^256 - 1. *)
Theorem task_ids_are_uint256 env c s s' t :
  isRequest c ->
  call env c s = Ok (s', Some t) ->
  0 <= t <= uint256_max.
Proof.
  intros Hreq Hcall. destruct (request_commits _ _ _ _ _ Hreq Hcall) as [-> _].
  destruct c; cbn [isRequest] in Hreq; try contradiction;
    cbn [requestTaskId]; unfold bindingTaskId, countTaskId;
    apply keccak256_uint_bounds.
Qed.

(** X20. What is hashed determines the inputs.  The task id of a request
    is the hash of its preimage, and for inputs within the ranges of
    their types two requests have the same preimage only if they are on
    the same path with the same binding id and block timestamp and, on
    the binding path, the same requester: task ids of different requests
    can only coincide through a collision of the hash. *)
Theorem equal_preimages_equal_inputs env1 c1 env2 c2 :
  isRequest c1 -> isRequest c2 ->
  inTypeRanges env1 c1 -> inTypeRanges env2 c2 ->
  requestTaskId env1 c1 = keccak256_uint (requestPreimage env1 c1)
  /\ (requestPreimage env1 c1 = requestPreimage env2 c2 ->
      sameHashedInputs env1 c1 env2 c2).
Proof.
  intros H1 H2 (Hb1 & Ht1 & Ha1) (Hb2 & Ht2 & Ha2).
  destruct c1; cbn [isRequest] in H1; try contradiction;
    (split; [reflexivity |]);
    destruct c2; cbn [isRequest] in H2; try contradiction;
    cbn [requestPreimage sameHashedInputs requestedBinding] in *; intros E.
  - by apply bindingPreimage_inj.
  - by apply preimages_of_the_two_paths_differ in E.
  - symmetry in E. by apply preimages_of_the_two_paths_differ in E.
  - by apply countPreimage_inj.
Qed.

End IdsAndCleartexts.

(** ** The hypotheses of the properties above, met on concrete histories *)

Lemma pendingState_reachable : reachable (fhe := CountingOracle) pendingState.
Proof. exact (reachable_run (fhe := CountingOracle) pendingHistory). Qed.

Lemma mixedState_reachable :
  reachable (fhe := CountingOracle) (run (fhe := CountingOracle) mixedHistory initial).
Proof. exact (reachable_run (fhe := CountingOracle) mixedHistory). Qed.

(** Bob submits a count on the state with Alice's pending task. *)
Lemma submit_then_get_witness :
  getBinding 2
    (transact (fhe := CountingOracle) pendingState
       (bob_block2, SubmitExternalEncryptedCount 5))
  = (bob, 0, 0, 5, 1012).
Proof.
  refine (proj1 (submit_then_get bob_block2 5 pendingState _ 2 _)).
  vm_compute. reflexivity.
Defined.

Lemma bindings_numbered_witness :
  0 <= bindingCount pendingState <= uint256_max.
Proof.
  exact (proj1 (bindings_numbered (fhe := CountingOracle) pendingState
                  pendingState_reachable)).
Defined.


Lemma bindings_immutable_witness :
  getBinding 1 (run (fhe := CountingOracle) mixedHistory pendingState)
  = getBinding 1 pendingState.
Proof.
  refine (bindings_immutable (fhe := CountingOracle) pendingState mixedHistory 1
            pendingState_reachable _).
  vm_compute. split; discriminate.
Defined.

Lemma getBinding_unregistered_is_zero_witness :
  getBinding 0 pendingState = (0, 0, 0, 0, 0).
Proof.
  refine (getBinding_unregistered_is_zero (fhe := CountingOracle) pendingState 0
            pendingState_reachable _).
  vm_compute. intros [H _]. apply H. reflexivity.
Defined.

Lemma registrations_logged_witness :
  BindingRegistered 3 bob
  ∈ events (run (fhe := CountingOracle) mixedHistory initial).
Proof.
  refine (proj2 (registrations_logged (fhe := CountingOracle) _
                   mixedState_reachable 3 bob) _).
  vm_compute. split; [split; discriminate | reflexivity].
Defined.

Lemma lookup_returns_binding_with_hash_witness :
  (getBinding 3 (run (fhe := CountingOracle) mixedHistory initial)).1.1.1.2 = 11.
Proof.
  refine (proj2 (lookup_returns_binding_with_hash (fhe := CountingOracle) _ 11
                   mixedState_reachable _)).
  vm_compute. discriminate.
Defined.

(** Request 7 was never assigned in the pending state. *)
Lemma unassigned_request_rejected_witness :
  call (fhe := CountingOracle) bob_block2 (HandleDecryption 7 seven []) pendingState
  = Revert (Require "Unknown request").
Proof.
  refine (proj1 (unassigned_request_rejected (fhe := CountingOracle) pendingState 7
                   pendingState_reachable _ bob_block2 _ _)).
  - vm_compute. intros H. apply list_elem_of_singleton in H. discriminate H.
  - reflexivity.
Defined.

(** Alice's request on the registered binding, then the oracle's answer. *)
Lemma request_then_complete_witness :
  exists r, correlated r pendingState = correlated 0 pendingState.
Proof.
  destruct (request_then_complete (fhe := CountingOracle) alice_block2
              (RequestBindingDecryption 1) registered pendingState
              (correlated 0 pendingState) I)
    as (r & _ & Hcor & _).
  - vm_compute. reflexivity.
  - vm_compute. discriminate.
  - exists r. exact Hcor.
Defined.

Lemma completion_touches_one_task_witness :
  bindings completedOnce = bindings pendingState.
Proof.
  refine (proj1 (proj2 (completion_touches_one_task (fhe := CountingOracle)
                          bob_block2 0 goodCallback pendingState completedOnce
                          None _ _))).
  - reflexivity.
  - vm_compute. reflexivity.
Defined.

(** The answers to requests 0 and 1 on the state with two pending tasks. *)
Lemma completions_commute_witness :
  exists sab sba,
    handleDecryption (fhe := CountingOracle) 1 seven (expectedProof 1 seven)
      (transact (fhe := CountingOracle) twoPendingState (bob_block2, goodCallback))
    = Ok sab
    /\ tasks sab = tasks sba.
Proof.
  destruct (completions_commute (fhe := CountingOracle)
              0 seven (expectedProof 0 seven) 1 seven (expectedProof 1 seven)
              twoPendingState
              (transact (fhe := CountingOracle) twoPendingState
                 (bob_block2, goodCallback))
              (transact (fhe := CountingOracle) twoPendingState
                 (bob_block2, HandleDecryption 1 seven (expectedProof 1 seven))))
    as (sab & sba & H1 & _ & Ht & _).
  - vm_compute. discriminate.
  - vm_compute. reflexivity.
  - vm_compute. reflexivity.
  - exists sab, sba. split; [exact H1 | exact Ht].
Defined.

Lemma stored_tasks_well_formed_witness :
  exists task,
    tasks pendingState !! correlated 0 pendingState = Some task
    /\ 1 <= DecryptTask.bindingId task <= bindingCount pendingState.
Proof.
  eexists. split; [vm_compute; reflexivity |].
  refine (proj1 (proj2 (stored_tasks_well_formed (fhe := CountingOracle)
                          pendingState (correlated 0 pendingState) _
                          pendingState_reachable _))).
  vm_compute. reflexivity.
Defined.

Lemma completed_tasks_are_logged_witness :
  correlated 0 pendingState <> 0.
Proof.
  refine (proj1 (completed_tasks_are_logged (fhe := CountingOracle) completedOnce
                   (correlated 0 pendingState) completedOnce_reachable _)).
  vm_compute. reflexivity.
Defined.

Lemma oracle_is_asked_about_stored_bindings_witness :
  exists b,
    1 <= b <= bindingCount pendingState
    /\ [33] = [toBytes32 (FHE := CountingOracle) (getBinding b pendingState).1.2].
Proof.
  refine (proj2 (oracle_is_asked_about_stored_bindings (fhe := CountingOracle)
                   pendingState
                   (mkOracleRequest [33] handleDecryption_selector 0)
                   pendingState_reachable _)).
  vm_compute. apply list_elem_of_singleton. reflexivity.
Defined.

(** The old answer to request 0, delivered again after the task was
    opened again. *)
Lemma reopened_task_completes_again_witness :
  exists s3,
    handleDecryption (fhe := CountingOracle) 0 seven (expectedProof 0 seven)
      reopenedState = Ok s3
    /\ isTaskCompleted (correlated 0 pendingState) s3 = true.
Proof.
  destruct (reopened_task_completes_again (fhe := CountingOracle)
              0 seven (expectedProof 0 seven) pendingState completedOnce
              alice_block2 (RequestBindingDecryption 1) reopenedState
              seven (expectedProof 0 seven))
    as (s3 & H3 & Hdone & _).
  - vm_compute. reflexivity.
  - exact I.
  - vm_compute. reflexivity.
  - vm_compute. reflexivity.
  - exists s3. split; [exact H3 | exact Hdone].
Defined.

(** The word for 7 on the pending count task. *)
Lemma count_callback_cleartexts_witness :
  exists s',
    handleCountDecryption (fhe := CountingOracle) 0 seven (expectedProof 0 seven)
      countPendingState = Ok s'
    /\ isTaskCompleted (correlated 0 countPendingState) s' = true.
Proof.
  refine (proj1 (count_callback_cleartexts (fhe := CountingOracle) 0
                   countPendingState seven (expectedProof 0 seven) _ _ _)
            7 [] _ _).
  - vm_compute. discriminate.
  - vm_compute. reflexivity.
  - vm_compute. reflexivity.
  - vm_compute. reflexivity.
  - vm_compute. split; discriminate.
Defined.

Lemma task_ids_are_uint256_witness :
  0 <= correlated 0 pendingState <= uint256_max.
Proof.
  refine (task_ids_are_uint256 (fhe := CountingOracle) alice_block2
            (RequestBindingDecryption 1) registered pendingState _ I _).
  vm_compute. reflexivity.
Defined.

(** Alice's and Bob's requests for binding 1 in the same block. *)
Lemma equal_preimages_equal_inputs_witness :
  requestTaskId alice_block2 (RequestBindingDecryption 1)
  = keccak256_uint (requestPreimage alice_block2 (RequestBindingDecryption 1)).
Proof.
  refine (proj1 (equal_preimages_equal_inputs alice_block2
                   (RequestBindingDecryption 1) bob_block2
                   (RequestBindingDecryption 1) I I _ _)).
  - vm_compute. repeat split; discriminate.
  - vm_compute. repeat split; discriminate.
Defined.

Lemma registered_ids_in_order_witness :
  registeredIds (events (run (fhe := CountingOracle) mixedHistory initial))
  = [1; 2; 3; 4].
Proof.
  exact (registered_ids_in_order (fhe := CountingOracle) _ mixedState_reachable).
Defined.

(** ** A later callback for a completed request *)

Section LaterCallbacks.

Context {fhe : FHE}.

Lemma completionCount_snoc tid evs e :
  completionCount tid (evs ++ [e])
  = (completionCount tid evs + if isCompletionOf tid e then 1 else 0)%nat.
Proof.
  unfold completionCount. rewrite List.filter_app, length_app. cbn [List.filter].
  destruct (isCompletionOf tid e); reflexivity.
Qed.

Lemma completionCount_other tid evs e :
  isCompletionOf tid e = false ->
  completionCount tid (evs ++ [e]) = completionCount tid evs.
Proof. intros E. rewrite completionCount_snoc, E. lia. Qed.

(** One transaction that neither returns the task id nor is assigned the
    request id leaves the entry, the flag and the count of completion
    events of a completed task as they are. *)
Lemma quiet_transact s tx r tid :
  correlated r s = tid ->
  isTaskCompleted tid s = true ->
  tid ∉ openedId s tx ->
  r ∉ assignedNow s tx ->
  correlated r (transact s tx) = tid
  /\ isTaskCompleted tid (transact s tx) = true
  /\ completionCount tid (events (transact s tx)) = completionCount tid (events s).
Proof.
  intros Hcor Hdone Hopen Hassign. destruct tx as [env c].
  destruct (transact_cases s env c) as [[-> _] | (v & Hcall & Hc)]; [auto |].
  unfold openedId, assignedNow in *. cbn [fst snd] in *.
  set (s' := transact s (env, c)) in *. clearbody s'.
  destruct Hc as [? ? ? ? H | ? ? H | b t0 H | b t0 H | r' ? ? H | r' ? ? H | H].
  - apply registerBinding_inv in H as (_ & _ & ->).
    cbn [events]. rewrite completionCount_other by reflexivity. auto.
  - apply submitExternalEncryptedCount_inv in H as (_ & _ & ->).
    cbn [events]. rewrite completionCount_other by reflexivity. auto.
  - rewrite H in Hopen.
    apply requestBindingDecryption_inv in H as (_ & _ & reqId & _ & ->).
    cbn [oracleRequests] in Hassign. rewrite drop_app_length in Hassign.
    cbn in Hassign. rewrite list_elem_of_singleton in Hopen, Hassign.
    rewrite correlated_insert, completed_after_insert. cbn [events].
    rewrite completionCount_other by reflexivity.
    destruct (decide (reqId = r)); [congruence |].
    destruct (decide (_ = tid)); [congruence |]. auto.
  - rewrite H in Hopen.
    apply requestCountDecryption_inv in H as (_ & _ & reqId & _ & ->).
    cbn [oracleRequests] in Hassign. rewrite drop_app_length in Hassign.
    cbn in Hassign. rewrite list_elem_of_singleton in Hopen, Hassign.
    rewrite correlated_insert, completed_after_insert. cbn [events].
    rewrite completionCount_other by reflexivity.
    destruct (decide (reqId = r)); [congruence |].
    destruct (decide (_ = tid)); [congruence |]. auto.
  - apply handleDecryption_inv in H as (_ & Hpend & _ & ->).
    assert (Hne : correlated r' s <> tid) by congruence.
    rewrite correlated_completedState, isTaskCompleted_completedState_ne
      by assumption.
    unfold completedState. cbn [events].
    rewrite completionCount_other by (by apply Z.eqb_neq).
    auto.
  - apply handleCountDecryption_inv in H as (_ & Hpend & _ & _ & ->).
    assert (Hne : correlated r' s <> tid) by congruence.
    rewrite correlated_completedState, isTaskCompleted_completedState_ne
      by assumption.
    unfold completedState. cbn [events].
    rewrite completionCount_other by (by apply Z.eqb_neq).
    auto.
  - subst. auto.
Qed.

Lemma quiet_run txs s r tid :
  correlated r s = tid ->
  isTaskCompleted tid s = true ->
  tid ∉ openedTasks txs s ->
  r ∉ assignedIds txs s ->
  correlated r (run txs s) = tid
  /\ isTaskCompleted tid (run txs s) = true
  /\ completionCount tid (events (run txs s)) = completionCount tid (events s).
Proof.
  revert s. induction txs as [| tx txs IH]; intros s Hcor Hdone Hopen Hassign;
    [auto |].
  cbn [openedTasks assignedIds collect] in Hopen, Hassign.
  unfold openedTasks, assignedIds in *. cbn [collect] in Hopen, Hassign.
  apply not_elem_of_app in Hopen as [Ho1 Ho2].
  apply not_elem_of_app in Hassign as [Ha1 Ha2].
  destruct (quiet_transact s tx r tid Hcor Hdone Ho1 Ha1) as (Hc1 & Hd1 & Hn1).
  cbn [run fold_left]. fold (run txs (transact s tx)).
  destruct (IH (transact s tx) Hc1 Hd1 Ho2 Ha2) as (Hc2 & Hd2 & Hn2).
  split; [exact Hc2 |]. split; [exact Hd2 |]. congruence.
Qed.

(** C1, amended. When a completion callback for request [r] has
    succeeded, a callback for the same [r] at any later state (through
    either handler, with any cleartexts and proof) is rejected with
    "Already completed" and leaves the whole state as it was, and from
    before the first call to after the second the log has gained exactly
    one [DecryptionCompleted] event of the task -- provided that no
    decryption request that committed in between returned the id of that
    task or was assigned the request id [r]. *)
Theorem later_completion_rejected env1 env2 r first second s s' v txs :
  completionOf r first ->
  completionOf r second ->
  call env1 first s = Ok (s', v) ->
  correlated r s ∉ openedTasks txs s' ->
  r ∉ assignedIds txs s' ->
  call env2 second (run txs s') = Revert (Require "Already completed")
  /\ transact (run txs s') (env2, second) = run txs s'
  /\ completionCount (correlated r s)
       (events (run ((env1, first) :: txs ++ [(env2, second)]) s))
     = S (completionCount (correlated r s) (events s)).
Proof.
  intros H1 H2 Hok Hopen Hassign.
  destruct (completion_commits _ _ _ _ _ _ H1 Hok) as (Hne & _ & Hs').
  assert (Hcor : correlated r s' = correlated r s)
    by (rewrite Hs'; apply correlated_completedState).
  assert (Hdone : isTaskCompleted (correlated r s) s' = true)
    by (rewrite Hs'; apply isTaskCompleted_completedState).
  destruct (quiet_run txs s' r (correlated r s) Hcor Hdone Hopen Hassign)
    as (Hc & Hd & Hn).
  assert (Hrej : call env2 second (run txs s')
                 = Revert (Require "Already completed")).
  { apply (completion_of_completed _ r); [assumption | |]; rewrite Hc; assumption. }
  assert (Hsame : transact (run txs s') (env2, second) = run txs s').
  { unfold transact, commit. cbn [fst snd]. by rewrite Hrej. }
  split; [exact Hrej |]. split; [exact Hsame |].
  change ((env1, first) :: txs ++ [(env2, second)])
    with ([(env1, first)] ++ txs ++ [(env2, second)]).
  rewrite !run_app. cbn [run fold_left].
  replace (transact s (env1, first)) with s'
    by (unfold transact, commit; cbn [fst snd]; by rewrite Hok).
  fold (run txs s'). rewrite Hsame, Hn, Hs'.
  unfold completedState. cbn [events].
  rewrite completionCount_snoc. cbn [isCompletionOf]. rewrite Z.eqb_refl. lia.
Qed.

End LaterCallbacks.

(** C1 does not hold as stated.  The callback for request 0 completes
    Alice's task; in the same block Alice asks for the same binding again,
    which lands on the same task id; the callback for request 0, delivered
    once more with the same cleartexts and proof, commits a second time,
    and the log holds two [DecryptionCompleted] events of the task. *)
Lemma replay_after_reopen_commits :
  let tid := correlated 0 pendingState in
  call (fhe := CountingOracle) bob_block2 goodCallback pendingState
  = Ok (completedOnce, None)
  /\ reopenedState
     = transact (fhe := CountingOracle) completedOnce
         (alice_block2, RequestBindingDecryption 1)
  /\ exists s3,
       call (fhe := CountingOracle) bob_block2 goodCallback reopenedState
       = Ok (s3, None)
       /\ events s3
          = events pendingState
              ++ [DecryptionCompleted tid 1; DecryptionRequested tid 1;
                  DecryptionCompleted tid 1]
       /\ completionCount tid (events s3)
          = S (S (completionCount tid (events pendingState))).
Proof.
  cbv zeta. split; [vm_compute; reflexivity |]. split; [reflexivity |].
  eexists. split; [vm_compute; reflexivity |].
  split; vm_compute; reflexivity.
Qed.

(** Between the two deliveries of the callback for request 0, Bob registers
    a binding and asks for binding 1 himself: another task id, request 1. *)
Lemma later_completion_rejected_witness :
  call (fhe := CountingOracle) bob_block2 goodCallback
    (run (fhe := CountingOracle)
       [(bob_block2, RegisterBinding 12 0 44);
        (bob_block2, RequestBindingDecryption 1)] completedOnce)
  = Revert (Require "Already completed").
Proof.
  refine (proj1 (later_completion_rejected (fhe := CountingOracle)
                   bob_block2 bob_block2 0 goodCallback goodCallback
                   pendingState completedOnce None
                   [(bob_block2, RegisterBinding 12 0 44);
                    (bob_block2, RequestBindingDecryption 1)] _ _ _ _ _)).
  - reflexivity.
  - reflexivity.
  - vm_compute. reflexivity.
  - vm_compute. intros H. apply list_elem_of_singleton in H. discriminate H.
  - vm_compute. intros H. apply list_elem_of_singleton in H. discriminate H.
Defined.
